(** * convert_file.py: tabular and disk-image conversion utilities

    A shallow embedding of [src/convert_file.py] and of the parts of the
    Python standard library it drives ([str] methods, text-mode file
    translation, [csv.writer], [csv.reader], [csv.DictReader],
    [csv.DictWriter], [posixpath], [subprocess.run]), followed by the
    properties established about them.

    Conventions of the embedding:
    - the standard library is modelled as CPython 3.11 behaves, the csv
      module with the excel dialect and [os.path] as [posixpath];
    - a Python [str] is a list of Unicode code points ([N]);
    - a file is represented by its content; a conversion takes the content
      of its input file and yields the content it writes to its output file.
      Paths, [open] failures, the [tqdm] progress meter and the final
      confirmation [print] of the tabular converters are not represented;
    - an exception that leaves a function is the [Raise] outcome of [result];
    - the external tools are reached through a [system] that resolves a
      program name to the behaviour of the executable, if there is one. *)

From Stdlib Require Import List NArith ZArith Bool Lia String Ascii.
From Stdlib Require Import DecimalString PrimFloat Permutation.
Import ListNotations.

(* ================================================================== *)
(** * Part I: the embedding *)
(* ================================================================== *)

(** ** Python strings *)
Module Py.

Definition char := N.
Definition str := list char.

(** A literal of the source, as a sequence of code points. *)
Definition py (s : string) : str :=
  map N_of_ascii (list_ascii_of_string s).

Definition LF : char := 10%N.
Definition CR : char := 13%N.
Definition QUOTE : char := 34%N.
Definition COMMA : char := 44%N.
Definition SLASH : char := 47%N.

(** [a == b]. *)
Fixpoint str_eqb (a b : str) : bool :=
  match a, b with
  | [], [] => true
  | x :: a', y :: b' => (x =? y)%N && str_eqb a' b'
  | _, _ => false
  end.

(** [str.isspace] on one character: the code points CPython classifies as
    whitespace. *)
Definition isspace (c : char) : bool :=
  ((9 <=? c) && (c <=? 13) || (28 <=? c) && (c <=? 32)
   || (c =? 133) || (c =? 160) || (c =? 5760)
   || (8192 <=? c) && (c <=? 8202)
   || (c =? 8232) || (c =? 8233) || (c =? 8239) || (c =? 8287)
   || (c =? 12288))%N.

Fixpoint lstrip (s : str) : str :=
  match s with
  | [] => []
  | c :: s' => if isspace c then lstrip s' else s
  end.

Definition rstrip (s : str) : str := rev (lstrip (rev s)).

(** [s.strip()]: whitespace removed at both ends. *)
Definition strip (s : str) : str := rstrip (lstrip s).

(** [s.split(sep)] for a one-character separator. *)
Fixpoint split (sep : char) (s : str) : list str :=
  match s with
  | [] => [[]]
  | c :: s' =>
      if (c =? sep)%N then [] :: split sep s'
      else match split sep s' with
           | f :: fs => (c :: f) :: fs
           | [] => [[c]]
           end
  end.

(** [sep.join(parts)]. *)
Fixpoint join (sep : str) (parts : list str) : str :=
  match parts with
  | [] => []
  | [p] => p
  | p :: ps => p ++ sep ++ join sep ps
  end.

(** Reading in text mode with [newline=None]: a carriage return, alone or
    followed by a line feed, is delivered as one line feed.  [pendingcr]
    records that the previous character was a carriage return. *)
Fixpoint translate_newlines (pendingcr : bool) (s : str) : str :=
  match s with
  | [] => []
  | c :: s' =>
      if (c =? CR)%N then LF :: translate_newlines true s'
      else if (c =? LF)%N && pendingcr then translate_newlines false s'
      else c :: translate_newlines false s'
  end.

Definition read_text (file : str) : str := translate_newlines false file.

(** Writing in text mode with [newline=None]: every line feed is written as
    [os.linesep]. *)
Definition write_text (linesep : str) (s : str) : str :=
  flat_map (fun c => if (c =? LF)%N then linesep else [c]) s.

(** [f.readlines()], and iteration over a text file: the text cut after
    every line feed. *)
Fixpoint readlines (s : str) : list str :=
  match s with
  | [] => []
  | c :: s' =>
      if (c =? LF)%N then [c] :: readlines s'
      else match readlines s' with
           | l :: ls => (c :: l) :: ls
           | [] => [[c]]
           end
  end.

(** A line is a run of characters other than the line feed, closed by a
    line feed unless it is the last one. *)
Definition line_shape (line : str) : Prop :=
  exists l, (line = l ++ [LF] \/ line = l) /\ Forall (fun c => c <> LF) l.

(** [str(n)] for an [int]. *)
Definition str_of_int (z : Z) : str :=
  py (NilZero.string_of_int (Z.to_int z)).

(** Exceptions that the modelled code can raise, by the class an [except]
    clause would name.  [ValueError] stands for its subclass
    [UnicodeEncodeError] too. *)
Inductive exn :=
| IndexError
| KeyError
| TypeError
| AttributeError
| ValueError
| CsvError
| FileNotFoundError
| CalledProcessError (returncode : Z) (stderr : option str)
| PermissionError
| UnicodeDecodeError
| OSError.

Inductive result (A : Type) :=
| Ok (a : A)
| Raise (e : exn).
Arguments Ok {A} a.
Arguments Raise {A} e.

Definition bind {A B} (r : result A) (k : A -> result B) : result B :=
  match r with
  | Ok a => k a
  | Raise e => Raise e
  end.

(** [sys.get_int_max_str_digits()]: [str] of an integer with more decimal
    digits raises [ValueError]. *)
Definition int_max_str_digits : Z := 4300.

(** Whether an integer has no more decimal digits than the limit. *)
Definition int_fits (z : Z) : bool := (Z.abs z <? 10 ^ int_max_str_digits)%Z.

(** [str(n)] and the formatting of [n] in an f-string, as calls. *)
Definition str_int (z : Z) : result str :=
  if int_fits z then Ok (str_of_int z) else Raise ValueError.

End Py.

Import Py.

Declare Scope result_scope.
Delimit Scope result_scope with result.
Notation "x <- r ;; k" := (bind r (fun x => k))
  (at level 61, r at next level, right associativity) : result_scope.

(** ** The csv module, excel dialect

    The delimiter is the comma, the quote character the double quote, there
    is no escape character, [doublequote=True], [skipinitialspace=False],
    the line terminator is CR LF, [quoting=QUOTE_MINIMAL], [strict=False]. *)
Module Csv.

Definition lineterminator : str := [CR; LF].

(** *** csv.writer *)

(** A character that forces the field to be quoted. *)
Definition special (c : char) : bool :=
  ((c =? COMMA) || (c =? QUOTE) || existsb (N.eqb c) lineterminator)%N.

(** [join_append_data]: whether the field has to be quoted, and its
    characters with every quote character doubled. *)
Fixpoint join_append_data (field : str) : bool * str :=
  match field with
  | [] => (false, [])
  | c :: f =>
      let (quoted, out) := join_append_data f in
      (special c || quoted,
       if (c =? QUOTE)%N then QUOTE :: c :: out else c :: out)
  end.

Record Writer := { rec : str; num_fields : nat }.

Definition join_reset : Writer := {| rec := []; num_fields := 0 |}.

(** The text of one field in a record: between quote characters when
    [quoted] is set or one of its characters is special. *)
Definition quoted_text (quoted : bool) (field : str) : str :=
  let (q, body) := join_append_data field in
  if quoted || q then QUOTE :: body ++ [QUOTE] else body.

Definition join_append (w : Writer) (field : str) (quoted : bool) : Writer :=
  let sep := match num_fields w with O => [] | S _ => [COMMA] end in
  {| rec := rec w ++ sep ++ quoted_text quoted field;
     num_fields := S (num_fields w) |}.

(** [writer.writerow(fields)]: the record text handed to the file. *)
Definition writerow (fields : list str) : str :=
  let w := fold_left (fun w f => join_append w f false) fields join_reset in
  let w :=
    match num_fields w, rec w with
    | S n, [] => join_append {| rec := rec w; num_fields := n |} [] true
    | _, _ => w
    end in
  rec w ++ lineterminator.

Definition writerows (rows : list (list str)) : str :=
  flat_map writerow rows.

(** The fields after the first, each behind its delimiter. *)
Fixpoint more_fields (fs : list str) : str :=
  match fs with
  | [] => []
  | f :: fs' => COMMA :: quoted_text false f ++ more_fields fs'
  end.

(** The record of a row in closed form; a row that would give an empty
    record, the single empty field, is written as two quote characters. *)
Definition record (fields : list str) : str :=
  match fields with
  | [] => []
  | f :: fs =>
      match quoted_text false f ++ more_fields fs with
      | [] => [QUOTE; QUOTE]
      | r => r
      end
  end.

(** *** csv.reader *)

(** The parser states the excel dialect can enter.  [ESCAPED_CHAR],
    [ESCAPE_IN_QUOTED_FIELD] and [AFTER_ESCAPED_CRNL] are entered only on the
    escape character, which this dialect does not have. *)
Inductive ParserState :=
| START_RECORD
| START_FIELD
| IN_FIELD
| IN_QUOTED_FIELD
| QUOTE_IN_QUOTED_FIELD
| EAT_CRNL.

Record Reader := {
  state : ParserState;
  field : str;
  fields : list str
}.

(** [csv.field_size_limit()]. *)
Definition field_limit : N := 131072%N.

Definition parse_reset : Reader :=
  {| state := START_RECORD; field := []; fields := [] |}.

Definition set_state (st : ParserState) (r : Reader) : Reader :=
  {| state := st; field := field r; fields := fields r |}.

Definition parse_save_field (r : Reader) : Reader :=
  {| state := state r; field := []; fields := fields r ++ [field r] |}.

Definition parse_add_char (r : Reader) (c : char) : result Reader :=
  if (field_limit <=? N.of_nat (List.length (field r)))%N then Raise CsvError
  else Ok {| state := state r; field := field r ++ [c];
             fields := fields r |}.

Definition is_crnl (c : char) : bool := ((c =? LF) || (c =? CR))%N.

(** State after a field was closed by [c]; [None] is the end of a line. *)
Definition after_eol (c : option char) : ParserState :=
  match c with None => START_RECORD | Some _ => EAT_CRNL end.

Definition ends_line (c : option char) : bool :=
  match c with None => true | Some ch => is_crnl ch end.

(** The [START_FIELD] case, which [START_RECORD] falls through to. *)
Definition start_field (r : Reader) (c : option char) : result Reader :=
  if ends_line c then Ok (set_state (after_eol c) (parse_save_field r))
  else match c with
       | None => Ok r
       | Some ch =>
           if (ch =? QUOTE)%N then Ok (set_state IN_QUOTED_FIELD r)
           else if (ch =? COMMA)%N then Ok (parse_save_field r)
           else (r' <- parse_add_char r ch ;; Ok (set_state IN_FIELD r'))%result
       end.

(** [parse_process_char]; [None] stands for the [EOL] marker. *)
Definition parse_process_char (r : Reader) (c : option char) : result Reader :=
  match state r with
  | START_RECORD =>
      match c with
      | None => Ok r
      | Some ch =>
          if is_crnl ch then Ok (set_state EAT_CRNL r)
          else start_field (set_state START_FIELD r) c
      end
  | START_FIELD => start_field r c
  | IN_FIELD =>
      if ends_line c then Ok (set_state (after_eol c) (parse_save_field r))
      else match c with
           | None => Ok r
           | Some ch =>
               if (ch =? COMMA)%N
               then Ok (set_state START_FIELD (parse_save_field r))
               else parse_add_char r ch
           end
  | IN_QUOTED_FIELD =>
      match c with
      | None => Ok r
      | Some ch =>
          if (ch =? QUOTE)%N then Ok (set_state QUOTE_IN_QUOTED_FIELD r)
          else parse_add_char r ch
      end
  | QUOTE_IN_QUOTED_FIELD =>
      match c with
      | Some ch =>
          if (ch =? QUOTE)%N
          then (r' <- parse_add_char r ch ;;
                Ok (set_state IN_QUOTED_FIELD r'))%result
          else if (ch =? COMMA)%N
          then Ok (set_state START_FIELD (parse_save_field r))
          else if is_crnl ch
          then Ok (set_state EAT_CRNL (parse_save_field r))
          else (r' <- parse_add_char r ch ;; Ok (set_state IN_FIELD r'))%result
      | None => Ok (set_state START_RECORD (parse_save_field r))
      end
  | EAT_CRNL =>
      match c with
      | None => Ok (set_state START_RECORD r)
      | Some ch => if is_crnl ch then Ok r else Raise CsvError
      end
  end.

Fixpoint parse_chars (r : Reader) (s : str) : result Reader :=
  match s with
  | [] => Ok r
  | c :: s' => (r' <- parse_process_char r (Some c) ;; parse_chars r' s')%result
  end.

(** One turn of the loop of [Reader_iternext]: the characters of a line, then
    the [EOL] marker. *)
Definition parse_line (r : Reader) (line : str) : result Reader :=
  (r' <- parse_chars r line ;; parse_process_char r' None)%result.

Definition is_start_record (st : ParserState) : bool :=
  match st with START_RECORD => true | _ => false end.

Definition is_in_quoted_field (st : ParserState) : bool :=
  match st with IN_QUOTED_FIELD => true | _ => false end.

(** [list(reader)]: [Reader_iternext] called until the lines are exhausted.
    [r] is the parser in the middle of the record being read. *)
Fixpoint read_rows (r : Reader) (lines : list str) : result (list (list str)) :=
  match lines with
  | [] =>
      if negb (Nat.eqb (List.length (field r)) 0) || is_in_quoted_field (state r)
      then Ok [fields (parse_save_field r)]
      else Ok []
  | line :: rest =>
      (r' <- parse_line r line ;;
       if is_start_record (state r')
       then (rows <- read_rows parse_reset rest ;; Ok (fields r' :: rows))
       else read_rows r' rest)%result
  end.

(** Whether a field fits the field size limit of the reader. *)
Definition within_limit (f : str) : bool :=
  (N.of_nat (List.length f) <=? field_limit)%N.

(** The parser holds the complete field [f] and has saved [flds]: it is
    before the first character of an empty field, inside an unquoted field,
    or behind the closing quote of a quoted one. *)
Definition field_done (r : Reader) (f : str) (flds : list str) : Prop :=
  fields r = flds /\ field r = f
  /\ (state r = START_FIELD /\ f = []
      \/ state r = IN_FIELD \/ state r = QUOTE_IN_QUOTED_FIELD).

(** A row the reader gives back as the writer took it: at least one field,
    every field within the size limit and free of line breaks. *)
Definition readable_row (row : list str) : Prop :=
  row <> []
  /\ forallb within_limit row = true
  /\ Forall (Forall (fun c => is_crnl c = false)) row.

(** [list(csv.reader(f))] for a file opened in text mode. *)
Definition reader (file : str) : result (list (list str)) :=
  read_rows parse_reset (readlines (read_text file)).

End Csv.

Import Csv.

(** ** The tabular converters *)
Module Tabular.

(** *** txt_to_csv *)

(** The row the loop of [txt_to_csv] builds from one line. *)
Definition row_of_line (line : str) : list str := split COMMA (strip line).

Definition txt_to_csv (txt_file : str) : str :=
  let lines := readlines (read_text txt_file) in
  let data := map row_of_line lines in
  writerows data.

(** The row of a line as the specification words it: only what trails the
    line is stripped. *)
Definition specified_row_of_line (line : str) : list str :=
  split COMMA (rstrip line).

(** Whether a line is what [csv_to_txt] writes back for it: the line
    without the whitespace around it, closed by a line feed. *)
Definition line_kept (line : str) : bool :=
  str_eqb (strip line ++ [LF]) line.

(** Whether every field of every row fits the field size limit. *)
Definition rows_within_limit (rows : list (list str)) : bool :=
  forallb (forallb within_limit) rows.

(** *** csv_to_txt

    [linesep] is [os.linesep] of the platform: the output file is opened in
    text mode without a [newline] argument. *)
Definition csv_to_txt (linesep : str) (csv_file : str) : result str :=
  (data <- Csv.reader csv_file ;;
   Ok (write_text linesep
         (flat_map (fun row => join [COMMA] row ++ [LF]) data)))%result.

(** The lines of a text, each without the whitespace around it and closed
    by a line feed. *)
Definition stripped_text (lines : list str) : str :=
  flat_map (fun line => strip line ++ [LF]) lines.

(** [os.linesep] of the platforms: the line feed, or carriage return and
    line feed. *)
Definition is_linesep (linesep : str) : Prop :=
  linesep = [LF] \/ linesep = [CR; LF].

(** [txt_to_csv] followed by [csv_to_txt] on the file it wrote. *)
Definition txt_csv_txt (linesep : str) (txt_file : str) : result str :=
  csv_to_txt linesep (txt_to_csv txt_file).

(** *** csv_to_json *)

(** A value of a row produced by [csv.DictReader]: a field, [None] for a
    column the row is too short for, or the list of the fields beyond the
    last column. *)
Inductive pyval :=
| PStr (s : str)
| PNone
| PList (l : list str).

(** A [dict] in insertion order; the key [None] is the [restkey]. *)
Definition pydict := list (option str * pyval).

Definition key_eqb (a b : option str) : bool :=
  match a, b with
  | Some x, Some y => str_eqb x y
  | None, None => true
  | _, _ => false
  end.

(** [d[k] = v]: an existing key keeps its place. *)
Fixpoint dict_set (d : pydict) (k : option str) (v : pyval) : pydict :=
  match d with
  | [] => [(k, v)]
  | (k', v') :: d' =>
      if key_eqb k' k then (k', v) :: d' else (k', v') :: dict_set d' k v
  end.

(** [dict(zip(fieldnames, row))]. *)
Definition dict_zip (fieldnames row : list str) : pydict :=
  fold_left (fun d kv => dict_set d (Some (fst kv)) (PStr (snd kv)))
            (combine fieldnames row) [].

(** The body of [DictReader.__next__] once a non-empty row is at hand. *)
Definition dict_of_row (fieldnames row : list str) : pydict :=
  let d := dict_zip fieldnames row in
  let lf := List.length fieldnames in
  let lr := List.length row in
  if Nat.ltb lf lr then dict_set d None (PList (skipn lf row))
  else if Nat.ltb lr lf
  then fold_left (fun d key => dict_set d (Some key) PNone)
                 (skipn lr fieldnames) d
  else d.

Definition is_empty_row (row : list str) : bool :=
  match row with [] => true | _ => false end.

(** A row that a line of text can hold: at least one field, no comma and
    no line break inside a field, and no whitespace at either end of the
    line the row makes. *)
Definition text_row (row : list str) : bool :=
  negb (is_empty_row row)
  && forallb (forallb (fun c => negb (c =? COMMA)%N && negb (is_crnl c))) row
  && str_eqb (strip (join [COMMA] row)) (join [COMMA] row).

(** All the mappings [csv.DictReader] yields for the rows of a file: the
    first row gives the field names, empty rows are passed over. *)
Definition DictReader (rows : list (list str)) : list pydict :=
  match rows with
  | [] => []
  | fieldnames :: rest =>
      map (dict_of_row fieldnames)
          (filter (fun row => negb (is_empty_row row)) rest)
  end.

(** A JSON document, as [json.load] returns it and [json.dump] takes it. *)
#[local] Unset Elimination Schemes.
Inductive json :=
| JNull
| JBool (b : bool)
| JInt (z : Z)
| JFloat (f : float)
| JStr (s : str)
| JArr (l : list json)
| JObj (d : list (str * json)).
#[local] Set Elimination Schemes.

(** What [json.dump] writes for the data of [csv_to_json], up to layout:
    a [None] key becomes the key [null], a [None] value the value [null]. *)
Definition json_of_pyval (v : pyval) : json :=
  match v with
  | PStr s => JStr s
  | PNone => JNull
  | PList l => JArr (map JStr l)
  end.

Definition json_of_key (k : option str) : str :=
  match k with Some s => s | None => py "null" end.

Definition json_of_pydict (d : pydict) : json :=
  JObj (map (fun kv => (json_of_key (fst kv), json_of_pyval (snd kv))) d).

(** One entry of a mapping as [json.dump] writes it. *)
Definition json_pair (kv : option str * pyval) : str * json :=
  (json_of_key (fst kv), json_of_pyval (snd kv)).

(** The mapping written for a data row under distinct column names, in
    closed form: the fields under their columns, then [null] for every
    column the row has no field for, or the fields beyond the last column as
    a list under the key [null]. *)
Definition doc_of_row (header row : list str) : json :=
  let lf := List.length header in
  let lr := List.length row in
  if Nat.ltb lf lr
  then JObj (combine header (map JStr row)
             ++ [(py "null", JArr (map JStr (skipn lf row)))])
  else JObj (combine header (map JStr row ++ repeat JNull (lf - lr))).

Definition csv_to_json (csv_file : str) : result json :=
  (rows <- Csv.reader csv_file ;;
   Ok (JArr (map json_of_pydict (DictReader rows))))%result.

(** Observations on a JSON document. *)
Definition json_keys (v : json) : list str :=
  match v with JObj d => map fst d | _ => [] end.

Definition json_values (v : json) : list json :=
  match v with JObj d => map snd d | _ => [] end.

Definition is_JStr (v : json) : bool :=
  match v with JStr _ => true | _ => false end.

(** *** json_to_csv *)

(** [data[0]]. *)
Definition getitem0 (data : json) : result json :=
  match data with
  | JArr [] => Raise IndexError
  | JArr (x :: _) => Ok x
  | JObj _ => Raise KeyError
  | JStr [] => Raise IndexError
  | JStr (c :: _) => Ok (JStr [c])
  | JNull | JBool _ | JInt _ | JFloat _ => Raise TypeError
  end.

(** [x.keys()]. *)
Definition keys (x : json) : result (list str) :=
  match x with
  | JObj d => Ok (map fst d)
  | _ => Raise AttributeError
  end.

(** [d.get(key, default)]. *)
Fixpoint dict_get (d : list (str * json)) (key : str) (default : json) : json :=
  match d with
  | [] => default
  | (k, v) :: d' => if str_eqb k key then v else dict_get d' key default
  end.

Definition get (x : json) (key : str) (default : json) : json :=
  match x with
  | JObj d => dict_get d key default
  | _ => default
  end.

Definition mem (k : str) (l : list str) : bool := existsb (str_eqb k) l.

(** [DictWriter._dict_to_list] with [extrasaction="raise"] and
    [restval=""]. *)
Definition _dict_to_list (fieldnames : list str) (rowdict : json)
  : result (list json) :=
  (ks <- keys rowdict ;;
   let wrong_fields := filter (fun k => negb (mem k fieldnames)) ks in
   match wrong_fields with
   | _ :: _ => Raise ValueError
   | [] => Ok (map (fun key => get rowdict key (JStr [])) fieldnames)
   end)%result.

(** Whether [row] is a mapping all of whose keys are among [fieldnames]. *)
Definition keys_within (fieldnames : list str) (row : json) : bool :=
  match row with
  | JObj d => forallb (fun k => mem k fieldnames) (map fst d)
  | _ => false
  end.

Definition is_JObj (v : json) : bool :=
  match v with JObj _ => true | _ => false end.

(** Whether [str(v)] exists: no integer in [v], at any depth, has more
    digits than the limit. *)
Fixpoint renderable (v : json) : bool :=
  match v with
  | JInt z => int_fits z
  | JArr l => forallb renderable l
  | JObj d => forallb (fun kv => renderable (snd kv)) d
  | _ => true
  end.

(** The characters of the 7-bit ASCII set. *)
Definition ascii_only (c : char) : bool := (c <? 128)%N.

Section JsonToCsv.

(** [str(v)] for a float, a list or a mapping, which [csv.writer] applies to
    a field that is neither a string nor [None]. *)
Variable py_str : json -> str.

(** The characters the encoding of the output file has: the file is opened
    in text mode with the encoding of the platform and strict errors. *)
Variable encodable : char -> bool.

(** The text of a field as [csv.writer] takes it. *)
Definition field_text (v : json) : str :=
  match v with
  | JStr s => s
  | JNull => []
  | JInt z => str_of_int z
  | JBool true => py "True"
  | JBool false => py "False"
  | _ => py_str v
  end.

(** Whether [writer.writerow] gets the fields into the file: [str] of
    every field exists and the file can encode the record.  Otherwise it
    raises [ValueError] and nothing of the record is written. *)
Definition writable (cells : list json) : bool :=
  forallb renderable cells
  && forallb encodable (writerow (map field_text cells)).

(** The loop over [data]: [out] is the text written so far. *)
Fixpoint write_rows (fieldnames : list str) (rows : list json) (out : str)
  : str * result unit :=
  match rows with
  | [] => (out, Ok tt)
  | row :: rest =>
      match _dict_to_list fieldnames row with
      | Raise e => (out, Raise e)
      | Ok cells =>
          if writable cells
          then write_rows fieldnames rest
                          (out ++ writerow (map field_text cells))
          else (out, Raise ValueError)
      end
  end.

(** The text written to the CSV file and how the call ends.  The header
    [dict(zip(fieldnames, fieldnames))] maps every field name to itself. *)
Definition json_to_csv (data : json) : str * result unit :=
  match getitem0 data with
  | Raise e => ([], Raise e)
  | Ok first =>
      match keys first with
      | Raise e => ([], Raise e)
      | Ok fieldnames =>
          if writable (map JStr fieldnames)
          then
            let out := writerow fieldnames in
            match data with
            | JArr rows => write_rows fieldnames rows out
            | _ => (out, Ok tt)
            end
          else ([], Raise ValueError)
      end
  end.

(** The text of the row written for a mapping without extra keys: the
    values of the field names, the empty string where one is missing. *)
Definition written_row (fieldnames : list str) (row : json) : str :=
  writerow (map (fun key => field_text (get row key (JStr []))) fieldnames).

(** Whether the loop gets past [row]: it is a mapping without a key outside
    [fieldnames] and its record can be written. *)
Definition row_ok (fieldnames : list str) (row : json) : bool :=
  keys_within fieldnames row
  && writable (map (fun key => get row key (JStr [])) fieldnames).

End JsonToCsv.

(** The JSON document of a table: one mapping per row, from the column
    names to the fields of the row, as strings. *)
Definition table (header : list str) (rows : list (list str)) : json :=
  JArr (map (fun row => JObj (combine header (map JStr row))) rows).


(** Sample array: the second mapping lacks the key b of the first. *)
Definition short_second : json :=
  JArr [JObj [(py "a", JStr (py "1")); (py "b", JStr (py "2"))];
        JObj [(py "a", JStr (py "3"))]].

(** Sample array: the second mapping has the key c, which the first has
    not. *)
Definition extra_second : json :=
  JArr [JObj [(py "a", JStr (py "1"))];
        JObj [(py "a", JStr (py "2")); (py "c", JStr (py "3"))]].

End Tabular.

(** ** Path normalisation (posixpath) *)
Module OsPath.

Definition isabs (p : str) : bool :=
  match p with
  | c :: _ => (c =? SLASH)%N
  | [] => false
  end.

Definition endswith_sep (p : str) : bool :=
  match rev p with
  | c :: _ => (c =? SLASH)%N
  | [] => false
  end.

(** [join(a, b)]. *)
Definition join2 (a b : str) : str :=
  if isabs b then b
  else match a with
       | [] => a ++ b
       | _ => if endswith_sep a then a ++ b else a ++ [SLASH] ++ b
       end.

(** Number of slashes [normpath] keeps in front: two when the path starts
    with exactly two, else one when it starts with one. *)
Definition initial_slashes (p : str) : nat :=
  match p with
  | a :: b :: c :: _ =>
      if (a =? SLASH)%N
      then if (b =? SLASH)%N && negb (c =? SLASH)%N then 2 else 1
      else 0
  | [a; b] =>
      if (a =? SLASH)%N then if (b =? SLASH)%N then 2 else 1 else 0
  | [a] => if (a =? SLASH)%N then 1 else 0
  | [] => 0
  end.

Definition is_nil (l : list str) : bool :=
  match l with [] => true | _ => false end.

Definition dot : str := py ".".
Definition dotdot : str := py "..".

(** One turn of the loop of [normpath] over the components. *)
Definition norm_step (initial : nat) (new_comps : list str) (comp : str)
  : list str :=
  if str_eqb comp [] || str_eqb comp dot then new_comps
  else if negb (str_eqb comp dotdot)
          || (Nat.eqb initial 0 && is_nil new_comps)
          || (negb (is_nil new_comps)
              && str_eqb (last new_comps []) dotdot)
  then new_comps ++ [comp]
  else removelast new_comps.

Definition normpath (path : str) : str :=
  match path with
  | [] => dot
  | _ =>
      let initial := initial_slashes path in
      let comps := fold_left (norm_step initial) (split SLASH path) [] in
      let path' := repeat SLASH initial ++ join [SLASH] comps in
      match path' with [] => dot | _ => path' end
  end.

(** [abspath(path)] in the working directory [cwd]. *)
Definition abspath (cwd path : str) : str :=
  normpath (if isabs path then path else join2 cwd path).

Definition ensure_absolute_path (cwd path : str) : str :=
  if negb (isabs path) then abspath cwd path else path.

(** A path component that names a file or a directory: not empty, without
    a slash, and neither of the two special names. *)
Definition plain_component (comp : str) : bool :=
  negb (str_eqb comp []) && negb (str_eqb comp dot)
  && negb (str_eqb comp dotdot)
  && forallb (fun c => negb (c =? SLASH)%N) comp.

End OsPath.

(** ** The image converters *)
Module Image.

(** What a process leaves when it exits. *)
Record Exit := { code : Z; out : str; err : str }.

(** What launching an executable with its arguments comes to: the process
    runs and exits, or [subprocess.run] raises, for instance
    [PermissionError] for a file that cannot be executed,
    [FileNotFoundError] for a script whose interpreter is missing,
    [UnicodeDecodeError] for captured output that cannot be decoded. *)
Inductive launch :=
| Exited (x : Exit)
| Failed (e : exn).

Definition executable := list str -> launch.

(** The result of [subprocess.run]; the streams are [None] unless
    captured. *)
Record CompletedProcess := {
  returncode : Z;
  stdout : option str;
  stderr : option str
}.

(** The [print] statements of the source, one constructor each, with the
    value they interpolate. *)
Inductive message :=
| DismReturnedError (e : exn)
| DismNotFound (e : exn)
| WimlibConvertedEsdToWim (wim_path : str)
| WimlibConvertedWimToEsd (esd_path : str)
| Error (stderr : option str)
| StartingDism
| Success (stdout : option str)
| DismFailedSwitching
| DismNotAvailable.

(** Why [print] fails: the message cannot be written, which raises
    [UnicodeEncodeError] for a character the encoding of standard output
    lacks and [ValueError] for a closed file; or the write fails, as on a
    broken pipe, which raises [OSError]. *)
Inductive stdout_error :=
| Unwritable
| WriteFailed.

Definition exn_of_stdout_error (e : stdout_error) : exn :=
  match e with
  | Unwritable => ValueError
  | WriteFailed => OSError
  end.

(** The system a conversion runs on: the resolution of a program name on
    the system path; the working directory, [None] when it has been
    removed; the characters the encoding of command-line arguments accepts;
    and for every message the failure of [print] on it, [None] when standard
    output takes the message. *)
Record system := {
  lookup : str -> option executable;
  getcwd : option str;
  os_encodes : char -> bool;
  stdout_refuses : message -> option stdout_error
}.

Inductive event :=
| Run (args : list str) (outcome : result CompletedProcess)
| Print (m : message).

(** A computation that runs tools and prints: its trace and its outcome. *)
Definition M (A : Type) : Type := list event * result A.

Definition ret {A} (a : A) : M A := ([], Ok a).

Definition raise {A} (e : exn) : M A := ([], Raise e).

Definition bindM {A B} (m : M A) (k : A -> M B) : M B :=
  match m with
  | (log, Ok a) => let (log', r) := k a in (log ++ log', r)
  | (log, Raise e) => (log, Raise e)
  end.

(** A value or an exception of a pure computation, as a step. *)
Definition lift {A} (r : result A) : M A := ([], r).

(** [print(...)]: the message is written, or the exception of standard
    output leaves the call. *)
Definition print (sys : system) (m : message) : M unit :=
  match stdout_refuses sys m with
  | None => ([Print m], Ok tt)
  | Some e => ([], Raise (exn_of_stdout_error e))
  end.

(** [try: body except ...: handler]; [handler e = None] when no clause
    matches [e]. *)
Definition try_except {A} (body : M A) (handler : exn -> option (M A)) : M A :=
  match body with
  | (log, Ok a) => (log, Ok a)
  | (log, Raise e) =>
      match handler e with
      | Some h => let (log', r) := h in (log ++ log', r)
      | None => (log, Raise e)
      end
  end.

Declare Scope io_scope.
Delimit Scope io_scope with io.
Notation "x <- m ;; k" := (bindM m (fun x => k))
  (at level 61, m at next level, right associativity) : io_scope.
Notation "m ;;; k" := (bindM m (fun _ => k))
  (at level 61, right associativity) : io_scope.

(** Whether an argument can go on a command line: it holds no NUL
    character and only characters the system encoding accepts. *)
Definition arg_packs (sys : system) (arg : str) : bool :=
  forallb (fun c => negb (c =? 0)%N && os_encodes sys c) arg.

Definition packs (sys : system) (args : list str) : bool :=
  forallb (arg_packs sys) args.

(** [subprocess.run(args, check=True, ...)]: the arguments are packed,
    which raises [ValueError] for a NUL character and its subclass
    [UnicodeEncodeError] for a character that cannot be encoded; the program
    is looked up and launched; an exit status other than zero is turned into
    [CalledProcessError]. *)
Definition run_outcome (sys : system) (args : list str) (capture_output : bool)
  : result CompletedProcess :=
  match args with
  | [] => Raise IndexError
  | prog :: rest =>
      if negb (packs sys args) then Raise ValueError
      else
        match lookup sys prog with
        | None => Raise FileNotFoundError
        | Some exe =>
            match exe rest with
            | Failed e => Raise e
            | Exited x =>
                let capture s := if capture_output then Some s else None in
                if (code x =? 0)%Z
                then Ok {| returncode := code x; stdout := capture (out x);
                           stderr := capture (err x) |}
                else Raise (CalledProcessError (code x) (capture (err x)))
            end
        end
  end.

Definition subprocess_run (sys : system) (args : list str)
  (capture_output : bool) : M CompletedProcess :=
  let r := run_outcome sys args capture_output in ([Run args r], r).

Definition dism : str := py "dism".
Definition wimlib_imagex : str := py "wimlib-imagex".

Section WithSystem.

Variable sys : system.

(** [ensure_absolute_path(path)] as a call: [os.getcwd], which [abspath]
    asks for a relative path, raises [FileNotFoundError] when the working
    directory has been removed. *)
Definition ensure_absolute_path (path : str) : M str :=
  match getcwd sys with
  | Some cwd => ret (OsPath.ensure_absolute_path cwd path)
  | None => if OsPath.isabs path then ret path else raise FileNotFoundError
  end.

Definition is_dism_available : M bool :=
  try_except
    (_ <- subprocess_run sys [dism; py "/?"] true ;; ret true)%io
    (fun e =>
       match e with
       | CalledProcessError _ _ =>
           Some (print sys (DismReturnedError e) ;;; ret false)%io
       | FileNotFoundError =>
           Some (print sys (DismNotFound e) ;;; ret false)%io
       | _ => None
       end).

Definition wimlib_esd_command (esd_path wim_path : str) (source_index : Z)
  : result (list str) :=
  (index <- str_int source_index ;;
   Ok [wimlib_imagex; py "export"; esd_path; index; wim_path;
       py "--compress=max"])%result.

Definition wimlib_wim_command (wim_path esd_path : str) (source_index : Z)
  : result (list str) :=
  (index <- str_int source_index ;;
   Ok [wimlib_imagex; py "export"; wim_path; index; esd_path;
       py "--solid"])%result.

Definition wimlib_esd_to_wim (esd_path wim_path : str) (source_index : Z)
  : M unit :=
  try_except
    (command <- lift (wimlib_esd_command esd_path wim_path source_index) ;;
     _ <- subprocess_run sys command false ;;
     print sys (WimlibConvertedEsdToWim wim_path))%io
    (fun e =>
       match e with
       | CalledProcessError _ stderr => Some (print sys (Error stderr))
       | _ => None
       end).

Definition wimlib_wim_to_esd (wim_path esd_path : str) (source_index : Z)
  : M unit :=
  try_except
    (command <- lift (wimlib_wim_command wim_path esd_path source_index) ;;
     _ <- subprocess_run sys command false ;;
     print sys (WimlibConvertedWimToEsd esd_path))%io
    (fun e =>
       match e with
       | CalledProcessError _ stderr => Some (print sys (Error stderr))
       | _ => None
       end).

Definition esd_dism_command (esd_path wim_path : str) (source_index : Z)
  : result (list str) :=
  (index <- str_int source_index ;;
   Ok [dism; py "/export-image";
       py "/sourceimagefile:" ++ esd_path;
       py "/sourceindex:" ++ index;
       py "/destinationimagefile:" ++ wim_path;
       py "/compress:max";
       py "/checkintegrity"])%result.

Definition wim_dism_command (wim_path esd_path : str) (source_index : Z)
  : result (list str) :=
  (index <- str_int source_index ;;
   Ok [dism; py "/export-image";
       py "/sourceimagefile:" ++ wim_path;
       py "/sourceindex:" ++ index;
       py "/destinationimagefile:" ++ esd_path;
       py "/compress:recovery";
       py "/checkintegrity"])%result.

(** The results of the two calls of [ensure_absolute_path] that open each
    converter are discarded: the tools get the paths as the caller gave
    them. *)
Definition esd_to_wim (esd_path wim_path : str) (source_index : Z) : M unit :=
  (ensure_absolute_path esd_path ;;;
   ensure_absolute_path wim_path ;;;
   available <- is_dism_available ;;
   if available : bool then
     dism_command <- lift (esd_dism_command esd_path wim_path source_index) ;;
     print sys StartingDism ;;;
     try_except
       (result <- subprocess_run sys dism_command true ;;
        print sys (Success (stdout result)))
       (fun e =>
          match e with
          | CalledProcessError _ stderr =>
              Some (print sys (Error stderr) ;;;
                    print sys DismFailedSwitching ;;;
                    wimlib_esd_to_wim esd_path wim_path source_index)
          | _ => None
          end)
   else
     print sys DismNotAvailable ;;;
     wimlib_esd_to_wim esd_path wim_path source_index)%io.

Definition wim_to_esd (wim_path esd_path : str) (source_index : Z) : M unit :=
  (ensure_absolute_path wim_path ;;;
   ensure_absolute_path esd_path ;;;
   available <- is_dism_available ;;
   if available : bool then
     dism_command <- lift (wim_dism_command wim_path esd_path source_index) ;;
     print sys StartingDism ;;;
     try_except
       (result <- subprocess_run sys dism_command true ;;
        print sys (Success (stdout result)))
       (fun e =>
          match e with
          | CalledProcessError _ stderr =>
              Some (print sys (Error stderr) ;;;
                    print sys DismFailedSwitching ;;;
                    wimlib_wim_to_esd wim_path esd_path source_index)
          | _ => None
          end)
   else
     print sys DismNotAvailable ;;;
     wimlib_wim_to_esd wim_path esd_path source_index)%io.

End WithSystem.

(** *** Observations on a trace *)

Definition is_fallback_run (e : event) : bool :=
  match e with
  | Run (prog :: _) _ => str_eqb prog wimlib_imagex
  | _ => false
  end.

(** Whether the fallback tool was invoked. *)
Definition fallback_attempted (log : list event) : bool :=
  existsb is_fallback_run log.

Definition runs (log : list event)
  : list (list str * result CompletedProcess) :=
  flat_map (fun e => match e with Run a o => [(a, o)] | Print _ => [] end) log.

(** The probe is the preferred tool run with the query flag alone. *)
Definition is_probe (args : list str) : bool :=
  match args with
  | [prog; flag] => str_eqb prog dism && str_eqb flag (py "/?")
  | _ => false
  end.


(** Whether the probe of the trace answered false: it printed one of its
    two diagnostics, after which it returns [False]. *)
Definition probe_returned_false (log : list event) : bool :=
  existsb (fun ev => match ev with
                     | Print (DismReturnedError _) | Print (DismNotFound _) =>
                         true
                     | _ => false
                     end) log.



(** *** The state machine of the specification *)

Inductive sm_state :=
| START
| PROBE_AVAILABLE
| PROBE_UNAVAILABLE
| PRIMARY_ATTEMPT
| FALLBACK_ATTEMPT
| SUCCESS
| FAILURE.




Definition is_ok {A} (r : result A) : bool :=
  match r with Ok _ => true | Raise _ => false end.

(** The state a tool invocation stands for: the probe is the preferred tool
    run with the query flag, the primary attempt any other run of it, the
    fallback attempt a run of the fallback tool. *)
Definition sm_of_run (args : list str) (outcome : result CompletedProcess)
  : sm_state :=
  match args with
  | prog :: rest =>
      if str_eqb prog wimlib_imagex then FALLBACK_ATTEMPT
      else match rest with
           | [flag] =>
               if str_eqb flag (py "/?")
               then if is_ok outcome then PROBE_AVAILABLE
                    else PROBE_UNAVAILABLE
               else PRIMARY_ATTEMPT
           | _ => PRIMARY_ATTEMPT
           end
  | [] => START
  end.

(** The states a trace goes through: one per tool invocation, then the
    terminal state, which is [SUCCESS] exactly when the last tool invoked
    completed with exit status zero. *)
Fixpoint sm_path (rs : list (list str * result CompletedProcess))
  : list sm_state :=
  match rs with
  | [] => []
  | [(a, o)] => [sm_of_run a o; if is_ok o then SUCCESS else FAILURE]
  | (a, o) :: rest => sm_of_run a o :: sm_path rest
  end.









(** Whether the [except] clauses around the run of [args] name [e]:
    [CalledProcessError] around every run, [FileNotFoundError] around the
    probe only. *)
Definition handler_names (args : list str) (e : exn) : bool :=
  match e with
  | CalledProcessError _ _ => true
  | FileNotFoundError => is_probe args
  | _ => false
  end.




(** *** Sample systems *)

(** The characters UTF-8 with the [surrogateescape] handler encodes: all
    but the surrogates outside U+DC80..U+DCFF. *)
Definition utf8_surrogateescape (c : char) : bool :=
  (negb ((55296 <=? c) && (c <=? 57343)) || (56448 <=? c) && (c <=? 56575))%N.

Definition posix (resolve : str -> option executable) : system :=
  {| lookup := resolve;
     getcwd := Some [SLASH];
     os_encodes := utf8_surrogateescape;
     stdout_refuses := fun _ => None |}.

Definition exit_with (c : Z) : executable :=
  fun _ => Exited {| code := c; out := py "out"; err := py "err" |}.

(** Neither tool is installed. *)
Definition no_tools : system := posix (fun _ => None).

(** Only the tool [name] is installed; it exits with status [c]. *)
Definition only (name : str) (c : Z) : system :=
  posix (fun prog => if str_eqb prog name then Some (exit_with c) else None).

(** The preferred tool answers the query flag with status zero and every
    other command line with status [c]; the fallback tool is not installed. *)
Definition dism_only (c : Z) : system :=
  posix (fun prog =>
           if str_eqb prog dism
           then Some (fun args =>
                        match args with
                        | [flag] =>
                            if str_eqb flag (py "/?") then exit_with 0 args
                            else exit_with c args
                        | _ => exit_with c args
                        end)
           else None).

(** The working directory has been removed; the fallback tool is
    installed and exits with status zero. *)
Definition no_cwd : system :=
  {| lookup := fun prog =>
       if str_eqb prog wimlib_imagex then Some (exit_with 0) else None;
     getcwd := None;
     os_encodes := utf8_surrogateescape;
     stdout_refuses := fun _ => None |}.

(** A file named as the preferred tool is on the system path but cannot be
    executed; the fallback tool is installed and exits with status zero. *)
Definition dism_not_executable : system :=
  posix (fun prog =>
           if str_eqb prog dism then Some (fun _ => Failed PermissionError)
           else if str_eqb prog wimlib_imagex then Some (exit_with 0)
           else None).

End Image.

(* ================================================================== *)
(** * Part II: properties *)
(* ================================================================== *)

(** ** Python strings *)
Module PyFacts.

Lemma str_eqb_refl (a : str) : str_eqb a a = true.
Proof.
  induction a as [|x a IH]; cbn; [reflexivity|].
  now rewrite N.eqb_refl, IH.
Qed.

Lemma str_eqb_eq (a b : str) : str_eqb a b = true <-> a = b.
Proof.
  split; [|intros ->; apply str_eqb_refl].
  revert b; induction a as [|x a IH]; intros [|y b]; cbn; try easy.
  intros H. apply andb_true_iff in H as [Hx Ha].
  apply N.eqb_eq in Hx. f_equal; auto.
Qed.

Lemma str_eqb_neq (a b : str) : str_eqb a b = false <-> a <> b.
Proof.
  rewrite <- str_eqb_eq. destruct (str_eqb a b); split; congruence.
Qed.

(** *** split and join *)

Lemma split_not_nil (sep : char) (s : str) : split sep s <> [].
Proof.
  induction s as [|c s IH]; cbn; [discriminate|].
  destruct (c =? sep)%N; [discriminate|].
  destruct (split sep s); [contradiction | discriminate].
Qed.

Lemma join_cons (sep p : str) (ps : list str) :
  ps <> [] -> join sep (p :: ps) = p ++ sep ++ join sep ps.
Proof. destruct ps; [contradiction | reflexivity]. Qed.

Lemma join_split (sep : char) (s : str) : join [sep] (split sep s) = s.
Proof.
  induction s as [|c s IH]; cbn [split]; [reflexivity|].
  destruct (N.eqb_spec c sep) as [->|_].
  - rewrite join_cons by apply split_not_nil. cbn. now rewrite IH.
  - pose proof (split_not_nil sep s) as Hne.
    destruct (split sep s) as [|f fs]; [contradiction|].
    destruct fs as [|g fs].
    + cbn in *. now rewrite IH.
    + rewrite join_cons by discriminate.
      rewrite join_cons in IH by discriminate.
      cbn. now rewrite <- IH.
Qed.

Lemma split_Forall (P : char -> Prop) (sep : char) (s : str) :
  Forall P s -> Forall (Forall P) (split sep s).
Proof.
  induction 1 as [|c s Hc Hs IH]; cbn.
  - repeat constructor.
  - destruct (c =? sep)%N; [now constructor|].
    destruct (split sep s) as [|f fs]; [repeat constructor; assumption|].
    inversion IH; subst. constructor; [now constructor | assumption].
Qed.

(** *** strip *)

Lemma lstrip_Forall (P : char -> Prop) (s : str) :
  Forall P s -> Forall P (lstrip s).
Proof.
  induction 1 as [|c s Hc Hs IH]; cbn; [constructor|].
  destruct (isspace c); [assumption | now constructor].
Qed.

Lemma rstrip_Forall (P : char -> Prop) (s : str) :
  Forall P s -> Forall P (rstrip s).
Proof.
  intros H. unfold rstrip.
  apply Forall_rev, lstrip_Forall, Forall_rev, H.
Qed.

Lemma strip_Forall (P : char -> Prop) (s : str) :
  Forall P s -> Forall P (strip s).
Proof. intros H. apply rstrip_Forall, lstrip_Forall, H. Qed.

Lemma lstrip_blank (s : str) : forallb isspace s = true -> lstrip s = [].
Proof.
  induction s as [|c s IH]; cbn; [reflexivity|].
  destruct (isspace c); [exact IH | discriminate].
Qed.

Lemma lstrip_snoc_space (s : str) (c : char) :
  isspace c = true ->
  lstrip (s ++ [c]) = if forallb isspace s then [] else lstrip s ++ [c].
Proof.
  intros Hc. induction s as [|d s IH]; cbn.
  - now rewrite Hc.
  - destruct (isspace d); [exact IH | reflexivity].
Qed.

Lemma rstrip_snoc_space (s : str) (c : char) :
  isspace c = true -> rstrip (s ++ [c]) = rstrip s.
Proof.
  intros Hc. unfold rstrip. rewrite rev_app_distr. cbn. now rewrite Hc.
Qed.

Lemma strip_snoc_space (s : str) (c : char) :
  isspace c = true -> strip (s ++ [c]) = strip s.
Proof.
  intros Hc. unfold strip. rewrite (lstrip_snoc_space s c Hc).
  destruct (forallb isspace s) eqn:Hs.
  - now rewrite (lstrip_blank s Hs).
  - now apply rstrip_snoc_space.
Qed.

Lemma strip_blank (s : str) : forallb isspace s = true -> strip s = [].
Proof. intros H. unfold strip. now rewrite (lstrip_blank s H). Qed.

(** *** Text-mode reading and line splitting *)

Lemma translate_newlines_no_CR (pendingcr : bool) (s : str) :
  Forall (fun c => c <> CR) (translate_newlines pendingcr s).
Proof.
  revert pendingcr. induction s as [|c s IH]; intros b; cbn; [constructor|].
  destruct (N.eqb_spec c CR) as [->|Hc].
  - constructor; [discriminate | apply IH].
  - destruct ((c =? LF)%N && b); [apply IH|].
    constructor; [assumption | apply IH].
Qed.

Lemma concat_readlines (s : str) : List.concat (readlines s) = s.
Proof.
  induction s as [|c s IH]; cbn; [reflexivity|].
  destruct (c =? LF)%N; cbn; [now rewrite IH|].
  destruct (readlines s) as [|l ls]; cbn in *; now rewrite <- IH.
Qed.

Lemma readlines_shape (s : str) : Forall line_shape (readlines s).
Proof.
  induction s as [|c s IH]; cbn; [constructor|].
  destruct (N.eqb_spec c LF) as [->|Hc].
  - constructor; [|assumption]. exists []. split; [now left | constructor].
  - destruct (readlines s) as [|l ls].
    + constructor; [|constructor].
      exists [c]. split; [now right | now repeat constructor].
    + inversion IH as [|? ? (l0 & Hl & Hl0) Hls]; subst.
      constructor; [|assumption].
      exists (c :: l0). split; [|now constructor].
      destruct Hl as [->| ->]; [now left | now right].
Qed.

Lemma readlines_Forall (P : char -> Prop) (s : str) :
  Forall P s -> Forall (Forall P) (readlines s).
Proof.
  intros H. rewrite <- (concat_readlines s) in H.
  now apply Forall_concat in H.
Qed.

Lemma readlines_snoc_line (l rest : str) :
  Forall (fun c => c <> LF) l ->
  readlines (l ++ LF :: rest) = (l ++ [LF]) :: readlines rest.
Proof.
  induction 1 as [|c l Hc Hl IH]; cbn.
  - reflexivity.
  - destruct (N.eqb_spec c LF); [contradiction|]. now rewrite IH.
Qed.

Lemma translate_newlines_record (pendingcr : bool) (l rest : str) :
  Forall (fun c => is_crnl c = false) l ->
  translate_newlines pendingcr (l ++ CR :: LF :: rest)
  = l ++ LF :: translate_newlines false rest.
Proof.
  intros H. revert pendingcr.
  induction H as [|c l Hc Hl IH]; intros b; cbn.
  - reflexivity.
  - unfold is_crnl in Hc. apply orb_false_iff in Hc as [Hlf Hcr].
    rewrite Hcr, Hlf. cbn. now rewrite IH.
Qed.

End PyFacts.
Import PyFacts.

(** ** The csv module *)
Module CsvFacts.

(** *** The writer in closed form *)

Lemma fold_join_append (fs : list str) (w : Writer) (n : nat) :
  num_fields w = S n ->
  fold_left (fun w f => join_append w f false) fs w
  = {| rec := rec w ++ more_fields fs;
       num_fields := S n + List.length fs |}.
Proof.
  revert w n. induction fs as [|f fs IH]; intros w n Hn; cbn [fold_left].
  - cbn. rewrite app_nil_r, Nat.add_0_r, <- Hn. now destruct w.
  - rewrite (IH _ (S n)) by (cbn; now rewrite Hn).
    unfold join_append. rewrite Hn. cbn [rec more_fields List.length].
    f_equal; [|lia]. now rewrite <- !app_assoc.
Qed.

Lemma writerow_record (row : list str) :
  writerow row = record row ++ lineterminator.
Proof.
  destruct row as [|f fs]; [reflexivity|].
  unfold writerow. cbn [fold_left].
  rewrite (fold_join_append fs _ 0) by reflexivity.
  cbn [rec num_fields join_append join_reset app record Nat.add].
  destruct (quoted_text false f ++ more_fields fs) as [|c r] eqn:E;
    [|reflexivity].
  apply app_eq_nil in E as [_ E].
  destruct fs; [reflexivity | discriminate E].
Qed.

Lemma record_form (f : str) (fs : list str) :
  exists q, record (f :: fs) = quoted_text q f ++ more_fields fs.
Proof.
  cbn [record].
  destruct (quoted_text false f ++ more_fields fs) as [|c r] eqn:E.
  - apply app_eq_nil in E as [Ef Efs]. exists true. rewrite Efs.
    destruct f as [|c f]; [reflexivity|].
    exfalso. unfold quoted_text in Ef. cbn in Ef.
    destruct (join_append_data f) as [q body].
    destruct (special c || q), (c =? QUOTE)%N; discriminate.
  - now exists false.
Qed.

Lemma record_not_nil (f : str) (fs : list str) : record (f :: fs) <> [].
Proof.
  cbn [record]. now destruct (quoted_text false f ++ more_fields fs).
Qed.

Lemma join_append_data_fst (f : str) :
  fst (join_append_data f) = existsb special f.
Proof.
  induction f as [|c f IH]; cbn; [reflexivity|].
  destruct (join_append_data f). cbn in *. now rewrite IH.
Qed.

Lemma special_false (c : char) :
  special c = false ->
  (c =? COMMA)%N = false /\ (c =? QUOTE)%N = false /\ is_crnl c = false.
Proof.
  unfold special, is_crnl. cbn [existsb lineterminator].
  destruct (c =? COMMA)%N, (c =? QUOTE)%N, (c =? CR)%N, (c =? LF)%N;
    cbn; intuition congruence.
Qed.

Lemma join_append_data_plain (f : str) :
  existsb special f = false -> snd (join_append_data f) = f.
Proof.
  induction f as [|c f IH]; cbn; [reflexivity|].
  intros H. apply orb_false_iff in H as [Hc Hf].
  destruct (join_append_data f). cbn in *.
  destruct (special_false c Hc) as (_ & -> & _). now rewrite IH.
Qed.

Lemma join_append_data_Forall (P : char -> Prop) (f : str) :
  P QUOTE -> Forall P f -> Forall P (snd (join_append_data f)).
Proof.
  intros HQ. induction 1 as [|c f Hc Hf IH]; cbn; [constructor|].
  destruct (join_append_data f). cbn in *.
  destruct (c =? QUOTE)%N; repeat constructor; assumption.
Qed.

Lemma quoted_text_Forall (P : char -> Prop) (q : bool) (f : str) :
  P QUOTE -> Forall P f -> Forall P (quoted_text q f).
Proof.
  intros HQ Hf. unfold quoted_text.
  pose proof (join_append_data_Forall P f HQ Hf) as H.
  destruct (join_append_data f) as [q' body]. cbn in H.
  destruct (q || q'); [|assumption].
  constructor; [assumption|]. apply Forall_app. split; [assumption|].
  now constructor.
Qed.

Lemma more_fields_Forall (P : char -> Prop) (fs : list str) :
  P QUOTE -> P COMMA -> Forall (Forall P) fs -> Forall P (more_fields fs).
Proof.
  intros HQ HC. induction 1 as [|f fs Hf Hfs IH]; cbn; [constructor|].
  constructor; [assumption|]. apply Forall_app. split; [|assumption].
  now apply quoted_text_Forall.
Qed.

Lemma record_Forall (P : char -> Prop) (row : list str) :
  P QUOTE -> P COMMA -> Forall (Forall P) row -> Forall P (record row).
Proof.
  intros HQ HC H. destruct row as [|f fs]; [constructor|].
  destruct (record_form f fs) as [q ->].
  inversion H; subst. apply Forall_app. split.
  - now apply quoted_text_Forall.
  - now apply more_fields_Forall.
Qed.

(** *** The reader on what the writer produced *)

Lemma parse_chars_app (r : Reader) (a b : str) :
  parse_chars r (a ++ b)
  = (r' <- parse_chars r a ;; parse_chars r' b)%result.
Proof.
  revert r. induction a as [|c a IH]; intros r; cbn; [reflexivity|].
  destruct (parse_process_char r (Some c)); cbn; [apply IH | reflexivity].
Qed.

Lemma add_char_ok (st : ParserState) (fld : str) (flds : list str) (c : char) :
  (N.of_nat (List.length fld) < field_limit)%N ->
  parse_add_char {| state := st; field := fld; fields := flds |} c
  = Ok {| state := st; field := fld ++ [c]; fields := flds |}.
Proof.
  intros H. unfold parse_add_char. cbn [field state fields].
  destruct (N.leb_spec field_limit (N.of_nat (List.length fld)));
    [lia | reflexivity].
Qed.

Lemma step_quoted_quote (fld : str) (flds : list str) :
  parse_process_char
    {| state := IN_QUOTED_FIELD; field := fld; fields := flds |} (Some QUOTE)
  = Ok {| state := QUOTE_IN_QUOTED_FIELD; field := fld; fields := flds |}.
Proof. reflexivity. Qed.

Lemma step_quote_quote (fld : str) (flds : list str) :
  parse_process_char
    {| state := QUOTE_IN_QUOTED_FIELD; field := fld; fields := flds |}
    (Some QUOTE)
  = (r' <- parse_add_char
             {| state := QUOTE_IN_QUOTED_FIELD; field := fld;
                fields := flds |} QUOTE ;;
     Ok (set_state IN_QUOTED_FIELD r'))%result.
Proof. reflexivity. Qed.

Lemma step_quoted_other (fld : str) (flds : list str) (c : char) :
  (c =? QUOTE)%N = false ->
  parse_process_char
    {| state := IN_QUOTED_FIELD; field := fld; fields := flds |} (Some c)
  = parse_add_char
      {| state := IN_QUOTED_FIELD; field := fld; fields := flds |} c.
Proof.
  intros H. unfold parse_process_char. cbn [state]. now rewrite H.
Qed.

Lemma step_field_plain (fld : str) (flds : list str) (c : char) :
  special c = false ->
  parse_process_char
    {| state := IN_FIELD; field := fld; fields := flds |} (Some c)
  = parse_add_char {| state := IN_FIELD; field := fld; fields := flds |} c.
Proof.
  intros H. destruct (special_false c H) as (Hcomma & _ & Hnl).
  unfold parse_process_char. cbn [state ends_line]. now rewrite Hnl, Hcomma.
Qed.

Lemma step_start_plain (fld : str) (flds : list str) (c : char) :
  special c = false ->
  parse_process_char
    {| state := START_FIELD; field := fld; fields := flds |} (Some c)
  = (r' <- parse_add_char
             {| state := START_FIELD; field := fld; fields := flds |} c ;;
     Ok (set_state IN_FIELD r'))%result.
Proof.
  intros H. destruct (special_false c H) as (Hcomma & Hquote & Hnl).
  unfold parse_process_char, start_field. cbn [state ends_line].
  now rewrite Hnl, Hquote, Hcomma.
Qed.

Lemma step_start_quote (fld : str) (flds : list str) :
  parse_process_char
    {| state := START_FIELD; field := fld; fields := flds |} (Some QUOTE)
  = Ok {| state := IN_QUOTED_FIELD; field := fld; fields := flds |}.
Proof. reflexivity. Qed.

Lemma parse_plain (f fld : str) (flds : list str) :
  existsb special f = false ->
  (N.of_nat (List.length fld) + N.of_nat (List.length f) <= field_limit)%N ->
  parse_chars {| state := IN_FIELD; field := fld; fields := flds |} f
  = Ok {| state := IN_FIELD; field := fld ++ f; fields := flds |}.
Proof.
  revert fld. induction f as [|c f IH]; intros fld Hs Hl.
  - cbn. now rewrite app_nil_r.
  - cbn [existsb] in Hs. apply orb_false_iff in Hs as [Hc Hf].
    cbn [List.length] in Hl. rewrite Nat2N.inj_succ in Hl.
    cbn [parse_chars].
    rewrite step_field_plain, add_char_ok by (assumption || lia).
    cbn [bind].
    rewrite IH; [now rewrite <- app_assoc | assumption |].
    rewrite length_app. cbn [List.length]. lia.
Qed.

Lemma parse_quoted_body (f fld : str) (flds : list str) :
  (N.of_nat (List.length fld) + N.of_nat (List.length f) <= field_limit)%N ->
  parse_chars {| state := IN_QUOTED_FIELD; field := fld; fields := flds |}
              (snd (join_append_data f))
  = Ok {| state := IN_QUOTED_FIELD; field := fld ++ f; fields := flds |}.
Proof.
  revert fld. induction f as [|c f IH]; intros fld Hl.
  - cbn. now rewrite app_nil_r.
  - cbn [List.length] in Hl. rewrite Nat2N.inj_succ in Hl.
    assert (N.of_nat (List.length (fld ++ [c])) + N.of_nat (List.length f)
            <= field_limit)%N as Hl'.
    { rewrite length_app. cbn [List.length]. lia. }
    specialize (IH (fld ++ [c]) Hl'). rewrite <- app_assoc in IH.
    cbn [join_append_data].
    destruct (join_append_data f) as [q body]. cbn [snd] in *.
    destruct (N.eqb_spec c QUOTE) as [->|Hc].
    + cbn [parse_chars]. rewrite step_quoted_quote. cbn [bind].
      rewrite step_quote_quote, add_char_ok by lia.
      cbn [bind set_state state field fields]. exact IH.
    + cbn [parse_chars]. apply N.eqb_neq in Hc.
      rewrite step_quoted_other, add_char_ok by (assumption || lia).
      cbn [bind]. exact IH.
Qed.

Lemma parse_field_content (q : bool) (f : str) (flds : list str) :
  within_limit f = true ->
  exists r,
    parse_chars {| state := START_FIELD; field := []; fields := flds |}
                (quoted_text q f) = Ok r
    /\ field_done r f flds.
Proof.
  intros Hl. unfold within_limit in Hl. apply N.leb_le in Hl.
  unfold quoted_text.
  pose proof (join_append_data_fst f) as Hq.
  pose proof (join_append_data_plain f) as Hplain.
  pose proof (parse_quoted_body f [] flds) as Hbody.
  destruct (join_append_data f) as [q' body]. cbn [fst snd] in *.
  destruct (q || q') eqn:Hqq.
  - eexists. split.
    + cbn [parse_chars]. rewrite step_start_quote. cbn [bind].
      rewrite parse_chars_app, Hbody by (cbn [List.length]; lia).
      cbn [bind parse_chars app]. rewrite step_quoted_quote. reflexivity.
    + unfold field_done. cbn. auto.
  - apply orb_false_iff in Hqq as [_ ->]. symmetry in Hq.
    rewrite (Hplain Hq). destruct f as [|c f].
    + eexists. split; [reflexivity|]. unfold field_done. cbn. auto.
    + cbn [existsb] in Hq. apply orb_false_iff in Hq as [Hc Hf].
      cbn [List.length] in Hl. rewrite Nat2N.inj_succ in Hl.
      eexists. split.
      * cbn [parse_chars].
        rewrite step_start_plain, add_char_ok
          by (assumption || (cbn [List.length]; lia)).
        cbn [bind set_state state field fields app].
        apply parse_plain; [assumption | cbn [List.length field]; lia].
      * unfold field_done. cbn. auto.
Qed.

Lemma comma_after_field (r : Reader) (f : str) (flds : list str) :
  field_done r f flds ->
  parse_process_char r (Some COMMA)
  = Ok {| state := START_FIELD; field := []; fields := flds ++ [f] |}.
Proof.
  destruct r as [st fld fs]. unfold field_done. cbn [state field fields].
  intros (-> & -> & [[-> ->]|[->| ->]]); reflexivity.
Qed.

Lemma lf_after_field (r : Reader) (f : str) (flds : list str) :
  field_done r f flds ->
  parse_process_char r (Some LF)
  = Ok {| state := EAT_CRNL; field := []; fields := flds ++ [f] |}.
Proof.
  destruct r as [st fld fs]. unfold field_done. cbn [state field fields].
  intros (-> & -> & [[-> ->]|[->| ->]]); reflexivity.
Qed.

Lemma parse_more_fields (fs : list str) (r : Reader) (f : str)
  (flds : list str) :
  forallb within_limit fs = true ->
  field_done r f flds ->
  parse_chars r (more_fields fs ++ [LF])
  = Ok {| state := EAT_CRNL; field := []; fields := flds ++ f :: fs |}.
Proof.
  revert r f flds. induction fs as [|g fs IH]; intros r f flds Hl Hr.
  - cbn [more_fields app parse_chars].
    rewrite (lf_after_field r f flds Hr). reflexivity.
  - cbn [forallb] in Hl. apply andb_true_iff in Hl as [Hg Hfs].
    cbn [more_fields app parse_chars].
    rewrite (comma_after_field r f flds Hr). cbn [bind].
    rewrite <- app_assoc, parse_chars_app.
    destruct (parse_field_content false g (flds ++ [f]) Hg) as (r' & -> & Hr').
    cbn [bind]. rewrite (IH r' g (flds ++ [f]) Hfs Hr').
    now rewrite <- app_assoc.
Qed.

Lemma parse_line_record (row : list str) :
  row <> [] ->
  forallb within_limit row = true ->
  Forall (Forall (fun c => is_crnl c = false)) row ->
  parse_line parse_reset (record row ++ [LF])
  = Ok {| state := START_RECORD; field := []; fields := row |}.
Proof.
  intros Hne Hl Hnl. destruct row as [|f fs]; [contradiction|].
  pose proof (record_Forall _ (f :: fs) eq_refl eq_refl Hnl) as Hrec.
  pose proof (record_not_nil f fs) as Hrne.
  destruct (record_form f fs) as [q Eq]. rewrite Eq in *.
  cbn [forallb] in Hl. apply andb_true_iff in Hl as [Hf Hfs].
  unfold parse_line.
  assert (parse_chars parse_reset ((quoted_text q f ++ more_fields fs) ++ [LF])
          = parse_chars {| state := START_FIELD; field := []; fields := [] |}
              ((quoted_text q f ++ more_fields fs) ++ [LF])) as ->.
  { destruct (quoted_text q f ++ more_fields fs) as [|c s]; [contradiction|].
    inversion Hrec as [|? ? Hc _]; subst.
    cbn [app parse_chars]. unfold parse_process_char at 1.
    cbn [state parse_reset]. rewrite Hc. reflexivity. }
  rewrite <- app_assoc, parse_chars_app.
  destruct (parse_field_content q f [] Hf) as (r & -> & Hr).
  cbn [bind]. rewrite (parse_more_fields fs r f [] Hfs Hr).
  reflexivity.
Qed.

Lemma read_rows_records (rows : list (list str)) :
  Forall readable_row rows ->
  read_rows parse_reset (map (fun row => record row ++ [LF]) rows) = Ok rows.
Proof.
  induction 1 as [|row rows (Hne & Hl & Hnl) Hrows IH]; [reflexivity|].
  cbn [map read_rows].
  rewrite (parse_line_record row Hne Hl Hnl).
  cbn [bind state is_start_record fields]. now rewrite IH.
Qed.

Lemma not_crnl_LF (c : char) : is_crnl c = false -> c <> LF.
Proof. intros H ->. discriminate H. Qed.

Lemma read_text_writerows (rows : list (list str)) :
  Forall readable_row rows ->
  read_text (writerows rows) = flat_map (fun row => record row ++ [LF]) rows.
Proof.
  unfold read_text, writerows.
  induction 1 as [|row rows (Hne & Hl & Hnl) Hrows IH]; [reflexivity|].
  cbn [flat_map]. rewrite writerow_record. unfold lineterminator.
  rewrite <- !app_assoc. cbn [app].
  rewrite translate_newlines_record
    by (apply record_Forall; [reflexivity | reflexivity | assumption]).
  now rewrite IH.
Qed.

Lemma readlines_records (rows : list (list str)) :
  Forall readable_row rows ->
  readlines (flat_map (fun row => record row ++ [LF]) rows)
  = map (fun row => record row ++ [LF]) rows.
Proof.
  induction 1 as [|row rows (Hne & Hl & Hnl) Hrows IH]; [reflexivity|].
  cbn [flat_map map]. rewrite <- app_assoc. cbn [app].
  rewrite readlines_snoc_line; [now rewrite IH|].
  eapply Forall_impl; [apply not_crnl_LF|].
  apply record_Forall; [reflexivity | reflexivity | assumption].
Qed.

(** Reading back what [writerows] wrote gives the rows. *)
Lemma reader_writerows (rows : list (list str)) :
  Forall readable_row rows -> Csv.reader (writerows rows) = Ok rows.
Proof.
  intros H. unfold Csv.reader.
  now rewrite read_text_writerows, readlines_records, read_rows_records.
Qed.

(** *** The field size limit *)








End CsvFacts.
Import CsvFacts.

(** ** The image converters *)
Module ImageFacts.
Import Image.







Lemma py_String (c : ascii) (s : string) :
  py (String c s) = N_of_ascii c :: py s.
Proof. reflexivity. Qed.

Lemma string_of_uint_chars (d : Decimal.uint) :
  Forall (fun c => (45 <= c <= 57)%N) (py (NilEmpty.string_of_uint d)).
Proof.
  induction d as [|d IH|d IH|d IH|d IH|d IH|d IH|d IH|d IH|d IH|d IH];
    cbn [NilEmpty.string_of_uint];
    [apply Forall_nil
    |rewrite py_String; apply Forall_cons;
     [vm_compute; split; discriminate | exact IH] ..].
Qed.

Lemma string_of_int_chars (d : Decimal.uint) :
  Forall (fun c => (45 <= c <= 57)%N) (py (NilZero.string_of_uint d)).
Proof.
  destruct d; try apply string_of_uint_chars.
  apply Forall_cons; [vm_compute; split; discriminate | apply Forall_nil].
Qed.

Lemma str_of_int_chars (z : Z) :
  Forall (fun c => (45 <= c <= 57)%N) (str_of_int z).
Proof.
  unfold str_of_int.
  destruct (Z.to_int z) as [d|d]; cbn [NilZero.string_of_int].
  - apply string_of_int_chars.
  - rewrite py_String. apply Forall_cons; [|apply string_of_int_chars].
    vm_compute; split; discriminate.
Qed.

Lemma arg_packs_str_of_int (z : Z) : arg_packs no_tools (str_of_int z) = true.
Proof.
  unfold arg_packs. apply forallb_forall. intros c Hc.
  pose proof (str_of_int_chars z) as Hall.
  rewrite Forall_forall in Hall. specialize (Hall c Hc).
  cbn [no_tools posix os_encodes]. unfold utf8_surrogateescape.
  destruct (N.eqb_spec c 0); [lia|].
  destruct (N.leb_spec 55296 c); [lia|]. reflexivity.
Qed.

(** On the system without tools a run of the fallback tool raises:
    [ValueError] when a path does not go on a command line, and
    [FileNotFoundError] otherwise. *)
Lemma run_fallback_no_tools (a b flag : str) (z : Z) (cap : bool) :
  arg_packs no_tools flag = true ->
  run_outcome no_tools
    [wimlib_imagex; py "export"; a; str_of_int z; b; flag] cap
  = Raise (if packs no_tools [a; b] then FileNotFoundError else ValueError).
Proof.
  intros Hflag. unfold run_outcome, packs. cbn [forallb].
  rewrite arg_packs_str_of_int, Hflag.
  replace (arg_packs no_tools wimlib_imagex) with true by reflexivity.
  replace (arg_packs no_tools (py "export")) with true by reflexivity.
  cbn [andb]. rewrite !andb_true_r.
  destruct (arg_packs no_tools a && arg_packs no_tools b); reflexivity.
Qed.

Lemma run_probe_no_tools :
  run_outcome no_tools [dism; py "/?"] true = Raise FileNotFoundError.
Proof. reflexivity. Qed.

Lemma is_dism_available_eq (sys : system) :
  let probe := [dism; py "/?"] in
  is_dism_available sys =
    match run_outcome sys probe true with
    | Ok cp => ([Run probe (Ok cp)], Ok true)
    | Raise e =>
        if handler_names probe e
        then
          let diagnostic := match e with
                            | FileNotFoundError => DismNotFound e
                            | _ => DismReturnedError e
                            end in
          match stdout_refuses sys diagnostic with
          | None => ([Run probe (Raise e); Print diagnostic], Ok false)
          | Some refusal =>
              ([Run probe (Raise e)], Raise (exn_of_stdout_error refusal))
          end
        else ([Run probe (Raise e)], Raise e)
    end.
Proof.
  cbv zeta.
  unfold is_dism_available, try_except, bindM, subprocess_run, ret, print.
  destruct (run_outcome sys [dism; py "/?"] true) as [cp|[]];
    try reflexivity.
  - match goal with
    | |- context [stdout_refuses ?s ?m] => destruct (stdout_refuses s m)
    end; reflexivity.
  - match goal with
    | |- context [stdout_refuses ?s ?m] => destruct (stdout_refuses s m)
    end; reflexivity.
Qed.

(** C7, refuted as stated: on a system where a file named as the preferred
    tool is on the system path and cannot be executed, the probe does not
    return a boolean: the [PermissionError] of the run, which neither
    handler names, leaves [is_dism_available]. *)
Lemma is_dism_available_raises_permission_error :
  is_dism_available dism_not_executable
  = ([Run [dism; py "/?"] (Raise PermissionError)], Raise PermissionError)
  /\ ~ (exists b : bool, snd (is_dism_available dism_not_executable) = Ok b).
Proof.
  split; [reflexivity|]. intros [b Hb]. discriminate Hb.
Qed.

(** C7, amended: the availability probe returns [true] when the preferred
    tool run with the query flag completes with exit status zero; when the
    run raises [CalledProcessError] (another exit status) or
    [FileNotFoundError] (the tool is not found on the system path) it prints
    one diagnostic and returns [false], unless standard output refuses the
    diagnostic, whose exception then leaves the probe; every other exception
    of the run leaves the probe as it is.  The run itself raises
    [ValueError] when its arguments do not go on a command line,
    [FileNotFoundError] when the tool does not resolve, the exception of the
    launch when the tool cannot be started, and [CalledProcessError] on an
    exit status other than zero. *)
Theorem is_dism_available_cases (sys : system) :
  let probe := [dism; py "/?"] in
  is_dism_available sys =
    match run_outcome sys probe true with
    | Ok cp => ([Run probe (Ok cp)], Ok true)
    | Raise e =>
        if handler_names probe e
        then
          let diagnostic := match e with
                            | FileNotFoundError => DismNotFound e
                            | _ => DismReturnedError e
                            end in
          match stdout_refuses sys diagnostic with
          | None => ([Run probe (Raise e); Print diagnostic], Ok false)
          | Some refusal =>
              ([Run probe (Raise e)], Raise (exn_of_stdout_error refusal))
          end
        else ([Run probe (Raise e)], Raise e)
    end
  /\ run_outcome sys probe true =
       (if packs sys probe
        then match lookup sys dism with
             | None => Raise FileNotFoundError
             | Some exe =>
                 match exe [py "/?"] with
                 | Failed e => Raise e
                 | Exited x =>
                     if (code x =? 0)%Z
                     then Ok {| returncode := 0; stdout := Some (out x);
                                stderr := Some (err x) |}
                     else Raise (CalledProcessError (code x) (Some (err x)))
                 end
             end
        else Raise ValueError).
Proof.
  cbv zeta. split; [apply is_dism_available_eq|].
  unfold run_outcome.
  destruct (packs sys [dism; py "/?"]); [|reflexivity]. cbn [negb].
  destruct (lookup sys dism) as [exe|]; [|reflexivity].
  destruct (exe [py "/?"]) as [x|e]; [|reflexivity].
  destruct (Z.eqb_spec (code x) 0) as [H0|H0]; [|reflexivity].
  now rewrite H0.
Qed.

(** C1: evaluation at the system on which neither tool is installed.  The
    probe answers false after one diagnostic and the fallback is entered.
    When the source index is within the digits limit of [str], the fallback
    tool is run, and the exception of that run leaves both [esd_to_wim] and
    [wim_to_esd], the handler of the fallback naming [CalledProcessError]
    only: [FileNotFoundError], or [ValueError] when a path does not go on a
    command line.  An index beyond the limit raises [ValueError] before the
    run. *)
Theorem conversions_raise_when_no_tool_installed (src dst : str) (index : Z) :
  let e := if int_fits index && packs no_tools [src; dst]
           then FileNotFoundError else ValueError in
  snd (esd_to_wim no_tools src dst index) = Raise e
  /\ snd (wim_to_esd no_tools src dst index) = Raise e
  /\ snd (is_dism_available no_tools) = Ok false
  /\ fallback_attempted (fst (esd_to_wim no_tools src dst index))
     = int_fits index
  /\ fallback_attempted (fst (wim_to_esd no_tools src dst index))
     = int_fits index.
Proof.
  cbv zeta.
  assert (He : forall m : M unit, fst m = fst m) by reflexivity.
  unfold esd_to_wim, wim_to_esd, ensure_absolute_path, wimlib_esd_to_wim,
    wimlib_wim_to_esd, wimlib_esd_command, wimlib_wim_command, str_int, bind,
    lift.
  rewrite is_dism_available_eq. cbv zeta. rewrite run_probe_no_tools.
  cbn [handler_names is_probe getcwd no_tools posix stdout_refuses].
  unfold try_except, bindM, subprocess_run, print, ret.
  cbn [getcwd no_tools posix stdout_refuses].
  destruct (int_fits index); cbn [andb].
  - rewrite !run_fallback_no_tools by reflexivity.
    destruct (packs no_tools [src; dst]); repeat split; reflexivity.
  - repeat split; reflexivity.
Qed.

Example trace_fallback_only :
  sm_path (runs (fst (esd_to_wim (only wimlib_imagex 0) (py "in.esd")
                        (py "out.wim") 1)))
  = [PROBE_UNAVAILABLE; FALLBACK_ATTEMPT; SUCCESS].
Proof. reflexivity. Qed.

Example trace_primary_fails_fallback_absent :
  let m := wim_to_esd (dism_only 5) (py "in.wim") (py "out.esd") 1 in
  sm_path (runs (fst m))
  = [PROBE_AVAILABLE; PRIMARY_ATTEMPT; FALLBACK_ATTEMPT; FAILURE]
  /\ snd m = Raise FileNotFoundError.
Proof. split; reflexivity. Qed.

Example trace_primary_succeeds :
  let m := esd_to_wim (dism_only 0) (py "in.esd") (py "out.wim") 1 in
  sm_path (runs (fst m)) = [PROBE_AVAILABLE; PRIMARY_ATTEMPT; SUCCESS]
  /\ snd m = Ok tt
  /\ fallback_attempted (fst m) = false.
Proof. repeat split; reflexivity. Qed.

(** A relative path cannot be made absolute once the working directory is
    gone: the conversion raises before it runs a tool. *)
Example conversion_needs_working_directory :
  esd_to_wim no_cwd (py "/images/in.esd") (py "out.wim") 1
  = ([], Raise FileNotFoundError).
Proof. reflexivity. Qed.

(** An index beyond the digits limit of [str] ends the conversion in the
    fallback before the fallback tool is run. *)
Example unrenderable_index_ends_before_fallback :
  let m := wim_to_esd (only wimlib_imagex 0) (py "in.wim") (py "out.esd")
             (10 ^ 4300) in
  probe_returned_false (fst m) = true
  /\ fallback_attempted (fst m) = false
  /\ snd m = Raise ValueError.
Proof. vm_compute. repeat split; reflexivity. Qed.










End ImageFacts.

(** ** json_to_csv *)
Module JsonFacts.
Import Tabular.

Section WithStr.

Variable py_str : json -> str.
Variable encodable : char -> bool.

Lemma mem_In (k : str) (l : list str) : mem k l = true <-> In k l.
Proof.
  unfold mem. rewrite existsb_exists. split.
  - intros (x & Hx & E). apply str_eqb_eq in E. now subst.
  - intros H. exists k. split; [assumption | apply str_eqb_refl].
Qed.

Lemma no_wrong_fields (fieldnames ks : list str) :
  forallb (fun k => mem k fieldnames) ks = true ->
  filter (fun k => negb (mem k fieldnames)) ks = [].
Proof.
  induction ks as [|k ks IH]; cbn; [reflexivity|].
  intros H. apply andb_true_iff in H as [Hk Hks].
  rewrite Hk. cbn. auto.
Qed.

Lemma some_wrong_field (fieldnames ks : list str) (k : str) :
  In k ks -> mem k fieldnames = false ->
  filter (fun k => negb (mem k fieldnames)) ks <> [].
Proof.
  intros Hin Hk E.
  assert (In k (filter (fun k => negb (mem k fieldnames)) ks)) as H.
  { apply filter_In. split; [assumption | now rewrite Hk]. }
  now rewrite E in H.
Qed.

Lemma dict_to_list_within (fieldnames : list str) (row : json) :
  keys_within fieldnames row = true ->
  _dict_to_list fieldnames row
  = Ok (map (fun key => get row key (JStr [])) fieldnames).
Proof.
  destruct row; cbn; try discriminate.
  intros H. now rewrite (no_wrong_fields _ _ H).
Qed.

Lemma dict_to_list_extra (fieldnames : list str) d (k : str) :
  In k (map fst d) -> mem k fieldnames = false ->
  _dict_to_list fieldnames (JObj d) = Raise ValueError.
Proof.
  intros Hin Hk. cbn.
  destruct (filter _ _) eqn:E; [|reflexivity].
  now apply some_wrong_field with (fieldnames := fieldnames) in Hin.
Qed.

Lemma dict_to_list_cases (fieldnames : list str) (row : json) :
  match _dict_to_list fieldnames row with
  | Ok _ => True
  | Raise e => if is_JObj row then e = ValueError else e = AttributeError
  end.
Proof.
  destruct row; cbn; try reflexivity.
  now destruct (filter _ _).
Qed.

Lemma keys_within_self d : keys_within (map fst d) (JObj d) = true.
Proof.
  cbn. apply forallb_forall. intros k Hk. now apply mem_In.
Qed.

Lemma row_ok_parts (fieldnames : list str) (row : json) :
  row_ok py_str encodable fieldnames row = true ->
  keys_within fieldnames row = true
  /\ writable py_str encodable
       (map (fun key => get row key (JStr [])) fieldnames) = true.
Proof. unfold row_ok. intros H. now apply andb_true_iff in H. Qed.

Lemma write_rows_ok (fieldnames : list str) (rows : list json) (out : str) :
  forallb (row_ok py_str encodable fieldnames) rows = true ->
  write_rows py_str encodable fieldnames rows out
  = (out ++ flat_map (written_row py_str fieldnames) rows, Ok tt).
Proof.
  revert out. induction rows as [|row rows IH]; intros out; cbn.
  - now rewrite app_nil_r.
  - intros H. apply andb_true_iff in H as [Hrow Hrows].
    destruct (row_ok_parts _ _ Hrow) as [Hkeys Hw].
    rewrite (dict_to_list_within _ _ Hkeys), Hw, IH by assumption.
    unfold written_row. now rewrite map_map, <- app_assoc.
Qed.

Lemma write_rows_extra (fieldnames : list str) (rows : list json) (out : str)
  d (k : str) :
  In (JObj d) rows -> In k (map fst d) -> mem k fieldnames = false ->
  exists out' e,
    write_rows py_str encodable fieldnames rows out = (out', Raise e)
    /\ (forallb is_JObj rows = true -> e = ValueError).
Proof.
  intros Hin Hk Hmem. revert out.
  induction rows as [|row rows IH]; intros out; [contradiction|].
  cbn [write_rows].
  pose proof (dict_to_list_cases fieldnames row) as Hcases.
  destruct (_dict_to_list fieldnames row) as [cells|e] eqn:E.
  - destruct (writable py_str encodable cells).
    + destruct Hin as [->|Hin].
      * now rewrite (dict_to_list_extra _ _ _ Hk Hmem) in E.
      * destruct (IH Hin (out ++ writerow (map (field_text py_str) cells)))
          as (out' & e & Hw & He).
        exists out', e. split; [assumption|].
        cbn. intros H. apply andb_true_iff in H as [_ H]. auto.
    + exists out, ValueError. split; reflexivity.
  - exists out, e. split; [reflexivity|].
    cbn. intros H. apply andb_true_iff in H as [Hrow _].
    now rewrite Hrow in Hcases.
Qed.

(** C5: on the empty array [json_to_csv] fails: taking the first element
    raises [IndexError] before anything is written. *)
Theorem json_to_csv_empty_array_fails :
  json_to_csv py_str encodable (JArr []) = ([], Raise IndexError).
Proof. reflexivity. Qed.

(** *** A key that a later element lacks *)

Lemma dict_get_app_default (d : list (str * json)) (k key : str)
  (default : json) :
  dict_get (d ++ [(k, default)]) key default = dict_get d key default.
Proof.
  induction d as [|[k' v'] d IH]; cbn.
  - now destruct (str_eqb k key).
  - now rewrite IH.
Qed.

Lemma dict_to_list_missing_key (fieldnames : list str)
  (d : list (str * json)) (k : str) :
  mem k fieldnames = true ->
  _dict_to_list fieldnames (JObj (d ++ [(k, JStr [])]))
  = _dict_to_list fieldnames (JObj d).
Proof.
  intros Hk. cbn. rewrite map_app, filter_app. cbn [map filter fst].
  rewrite Hk. cbn [negb]. rewrite app_nil_r.
  destruct (filter _ (map fst d)); [|reflexivity].
  f_equal. apply map_ext. intros key. apply dict_get_app_default.
Qed.

Lemma write_rows_congr (fieldnames : list str) (pre post : list json)
  (row row' : json) (out : str) :
  _dict_to_list fieldnames row = _dict_to_list fieldnames row' ->
  write_rows py_str encodable fieldnames (pre ++ row :: post) out
  = write_rows py_str encodable fieldnames (pre ++ row' :: post) out.
Proof.
  intros E. revert out.
  induction pre as [|r pre IH]; intros out; cbn [app write_rows].
  - now rewrite E.
  - destruct (_dict_to_list fieldnames r) as [cells|e]; [|reflexivity].
    destruct (writable py_str encodable cells); [apply IH | reflexivity].
Qed.

(** C2, as amended: an element after the first that lacks one of the keys
    of the first element does not make [json_to_csv] fail with a missing-key
    error: the call writes the same text and ends the same way as when the
    element carries that key with the empty string as its value. *)
Theorem json_to_csv_missing_key_as_empty
  (d0 : list (str * json)) (pre post : list json)
  (d : list (str * json)) (k : str) :
  In k (map fst d0) -> ~ In k (map fst d) ->
  json_to_csv py_str encodable (JArr (JObj d0 :: pre ++ JObj d :: post))
  = json_to_csv py_str encodable
      (JArr (JObj d0 :: pre ++ JObj (d ++ [(k, JStr [])]) :: post)).
Proof.
  intros Hk _. unfold json_to_csv. cbn [getitem0 keys].
  destruct (writable py_str encodable (map JStr (map fst d0)));
    [|reflexivity].
  apply (write_rows_congr (map fst d0) (JObj d0 :: pre) post).
  symmetry. apply dict_to_list_missing_key. now apply mem_In.
Qed.

(** C10: when an element after the first is a mapping with a key that is not
    a key of the first element, [json_to_csv] raises; the error is
    [ValueError] when all the elements are mappings. *)
Theorem json_to_csv_extra_key_raises
  (d0 : list (str * json)) (rest : list json)
  (d : list (str * json)) (k : str) :
  In (JObj d) rest -> In k (map fst d) -> mem k (map fst d0) = false ->
  exists e,
    snd (json_to_csv py_str encodable (JArr (JObj d0 :: rest))) = Raise e
    /\ (forallb is_JObj rest = true -> e = ValueError).
Proof.
  intros Hin Hk Hmem. unfold json_to_csv. cbn [getitem0 keys].
  destruct (writable py_str encodable (map JStr (map fst d0)));
    [|exists ValueError; split; reflexivity].
  destruct (write_rows_extra (map fst d0) (JObj d0 :: rest)
              (writerow (map fst d0)) d k (or_intror Hin) Hk Hmem)
    as (out' & e & Hw & He).
  exists e. rewrite Hw. split; [reflexivity | exact He].
Qed.

(** *** When the call returns and what it leaves behind *)

Lemma dict_to_list_ok_within (fieldnames : list str) (row : json)
  (cells : list json) :
  _dict_to_list fieldnames row = Ok cells ->
  keys_within fieldnames row = true.
Proof.
  destruct row; cbn; try discriminate.
  destruct (filter _ _) eqn:E; [intros _ | discriminate].
  apply forallb_forall. intros k Hk.
  destruct (mem k fieldnames) eqn:Hm; [reflexivity|].
  now apply some_wrong_field with (fieldnames := fieldnames) in Hk.
Qed.

Lemma dict_to_list_not_within (fieldnames : list str) (row : json) :
  keys_within fieldnames row = false ->
  _dict_to_list fieldnames row
  = Raise (if is_JObj row then ValueError else AttributeError).
Proof.
  intros H.
  pose proof (dict_to_list_cases fieldnames row) as Hcases.
  destruct (_dict_to_list fieldnames row) as [cells|e] eqn:E.
  - apply dict_to_list_ok_within in E. congruence.
  - destruct (is_JObj row); now subst.
Qed.

Lemma write_rows_returns_ok (fieldnames : list str) (rows : list json)
  (out : str) :
  snd (write_rows py_str encodable fieldnames rows out) = Ok tt ->
  forallb (row_ok py_str encodable fieldnames) rows = true.
Proof.
  revert out. induction rows as [|row rows IH]; intros out; [reflexivity|].
  cbn [write_rows forallb].
  destruct (_dict_to_list fieldnames row) as [cells|e] eqn:E;
    [|discriminate].
  pose proof (dict_to_list_ok_within _ _ _ E) as Hkeys.
  rewrite (dict_to_list_within _ _ Hkeys) in E. injection E as <-.
  unfold row_ok at 1. rewrite Hkeys.
  destruct (writable py_str encodable _); [|discriminate].
  cbn [andb]. apply IH.
Qed.

Lemma write_rows_stops (fieldnames : list str) (bad : json)
  (rest : list json) (out : str) :
  row_ok py_str encodable fieldnames bad = false ->
  write_rows py_str encodable fieldnames (bad :: rest) out
  = (out, Raise (if is_JObj bad then ValueError else AttributeError)).
Proof.
  intros Hbad. cbn [write_rows]. unfold row_ok in Hbad.
  pose proof (dict_to_list_cases fieldnames bad) as Hcases.
  destruct (keys_within fieldnames bad) eqn:Hkeys.
  - rewrite (dict_to_list_within _ _ Hkeys). cbn [andb] in Hbad.
    rewrite Hbad. destruct bad; try discriminate Hkeys. reflexivity.
  - destruct (_dict_to_list fieldnames bad) as [cells|e] eqn:E.
    + apply dict_to_list_ok_within in E. congruence.
    + destruct (is_JObj bad); now subst.
Qed.

Lemma write_rows_app (fieldnames : list str) (good rest : list json)
  (out : str) :
  forallb (row_ok py_str encodable fieldnames) good = true ->
  write_rows py_str encodable fieldnames (good ++ rest) out
  = write_rows py_str encodable fieldnames rest
      (out ++ flat_map (written_row py_str fieldnames) good).
Proof.
  revert out. induction good as [|row good IH]; intros out; cbn.
  - now rewrite app_nil_r.
  - intros H. apply andb_true_iff in H as [Hrow Hgood].
    destruct (row_ok_parts _ _ Hrow) as [Hkeys Hw].
    rewrite (dict_to_list_within _ _ Hkeys), Hw, IH by assumption.
    unfold written_row. now rewrite map_map, <- app_assoc.
Qed.

(** What [json_to_csv] writes when the header and every row can be
    written. *)
Lemma json_to_csv_rows_ok (d0 : list (str * json)) (rest : list json) :
  writable py_str encodable (map JStr (map fst d0)) = true ->
  forallb (row_ok py_str encodable (map fst d0)) (JObj d0 :: rest) = true ->
  json_to_csv py_str encodable (JArr (JObj d0 :: rest))
  = (writerow (map fst d0)
       ++ flat_map (written_row py_str (map fst d0)) (JObj d0 :: rest),
     Ok tt).
Proof.
  intros Hheader Hrows. unfold json_to_csv. cbn [getitem0 keys].
  rewrite Hheader. now apply write_rows_ok.
Qed.

(** X5: [json_to_csv] returns normally exactly for an array that starts
    with a mapping, whose elements are mappings with no key outside the keys
    of the first, and whose header and rows can be written: [str] of every
    value exists and the output file can encode every record.  Every other
    document makes it raise. *)
Theorem json_to_csv_returns_iff (data : json) :
  snd (json_to_csv py_str encodable data) = Ok tt
  <-> exists d0 rest,
        data = JArr (JObj d0 :: rest)
        /\ writable py_str encodable (map JStr (map fst d0)) = true
        /\ forallb (row_ok py_str encodable (map fst d0)) (JObj d0 :: rest)
           = true.
Proof.
  split.
  - destruct data as [| | | |s|l|d]; try discriminate.
    + destruct s; discriminate.
    + destruct l as [|first rest]; [discriminate|].
      destruct first as [| | | | | |d0]; try discriminate.
      unfold json_to_csv. cbn [getitem0 keys].
      destruct (writable py_str encodable (map JStr (map fst d0))) eqn:Hh;
        [|discriminate].
      intros H. apply write_rows_returns_ok in H.
      now exists d0, rest.
  - intros (d0 & rest & -> & Hh & H).
    now rewrite json_to_csv_rows_ok.
Qed.

(** X6: when [json_to_csv] fails on an element, the header and the rows of
    the elements before it have been written and stay in the file; the error
    is [ValueError] for a mapping with a key the first element has not or
    with a record that cannot be written, and [AttributeError] for an
    element that is not a mapping. *)
Theorem json_to_csv_partial_output
  (d0 : list (str * json)) (good : list json) (bad : json)
  (rest : list json) :
  writable py_str encodable (map JStr (map fst d0)) = true ->
  forallb (row_ok py_str encodable (map fst d0)) (JObj d0 :: good) = true ->
  row_ok py_str encodable (map fst d0) bad = false ->
  json_to_csv py_str encodable (JArr (JObj d0 :: good ++ bad :: rest))
  = (writerow (map fst d0)
       ++ flat_map (written_row py_str (map fst d0)) (JObj d0 :: good),
     Raise (if is_JObj bad then ValueError else AttributeError)).
Proof.
  intros Hheader Hgood Hbad. unfold json_to_csv. cbn [getitem0 keys].
  rewrite Hheader.
  change (JObj d0 :: good ++ bad :: rest)
    with ((JObj d0 :: good) ++ bad :: rest).
  rewrite write_rows_app by assumption.
  now apply write_rows_stops.
Qed.

(** *** The order of the keys of a later element *)

Lemma dict_get_perm (d d' : list (str * json)) (key : str) (default : json) :
  NoDup (map fst d) -> Permutation d d' ->
  dict_get d key default = dict_get d' key default.
Proof.
  intros Hnd Hperm. induction Hperm as [|[k v] l l' Hp IH|[k v] [k' v'] l|l l' l'' H1 IH1 H2 IH2].
  - reflexivity.
  - cbn in *. inversion Hnd; subst.
    destruct (str_eqb k key); [reflexivity | now apply IH].
  - cbn in *. inversion Hnd as [|? ? Hin _]; subst.
    destruct (str_eqb k key) eqn:E1, (str_eqb k' key) eqn:E2; try reflexivity.
    apply str_eqb_eq in E1, E2. subst. exfalso. apply Hin. now left.
  - rewrite IH1 by assumption. apply IH2.
    eapply Permutation_NoDup; [|exact Hnd]. now apply Permutation_map.
Qed.

Lemma existsb_perm (p : str -> bool) (l l' : list str) :
  Permutation l l' -> existsb p l = existsb p l'.
Proof.
  induction 1 as [|x l l' _ IH|x y l|l l' l'' _ IH1 _ IH2]; cbn.
  - reflexivity.
  - now rewrite IH.
  - now destruct (p x), (p y).
  - now rewrite IH1.
Qed.

Lemma filter_nil_existsb (p : str -> bool) (l : list str) :
  existsb p l = match filter p l with [] => false | _ :: _ => true end.
Proof.
  induction l as [|x l IH]; cbn; [reflexivity|].
  destruct (p x); [reflexivity | exact IH].
Qed.

Lemma dict_to_list_perm (fieldnames : list str) (d d' : list (str * json)) :
  NoDup (map fst d) -> Permutation d d' ->
  _dict_to_list fieldnames (JObj d) = _dict_to_list fieldnames (JObj d').
Proof.
  intros Hnd Hperm. cbn.
  pose proof (existsb_perm (fun k => negb (mem k fieldnames)) _ _
                (Permutation_map fst Hperm)) as He.
  rewrite !filter_nil_existsb in He.
  destruct (filter _ (map fst d)), (filter _ (map fst d'));
    try discriminate He; [|reflexivity].
  f_equal. apply map_ext. intros key. now apply dict_get_perm.
Qed.

(** X13: the order of the keys inside an element after the first has no
    effect on what [json_to_csv] writes or on how it ends: the columns
    follow the keys of the first element. *)
Theorem json_to_csv_ignores_key_order
  (d0 : list (str * json)) (pre post : list json)
  (d d' : list (str * json)) :
  NoDup (map fst d) -> Permutation d d' ->
  json_to_csv py_str encodable (JArr (JObj d0 :: pre ++ JObj d :: post))
  = json_to_csv py_str encodable (JArr (JObj d0 :: pre ++ JObj d' :: post)).
Proof.
  intros Hnd Hperm. unfold json_to_csv. cbn [getitem0 keys].
  destruct (writable py_str encodable (map JStr (map fst d0)));
    [|reflexivity].
  apply (write_rows_congr (map fst d0) (JObj d0 :: pre) post).
  now apply dict_to_list_perm.
Qed.

End WithStr.

(** C2 as stated does not hold: the second element of [short_second] lacks
    the key [b] of the first, and [json_to_csv] returns normally, having
    written an empty field in its place. *)
Lemma json_to_csv_missing_key_no_error :
  ~ (forall (py_str : json -> str) (encodable : char -> bool)
            (first : json) (rest : list json),
        (exists row k, In row rest /\ In k (json_keys first)
                       /\ ~ In k (json_keys row)) ->
        exists e,
          snd (json_to_csv py_str encodable (JArr (first :: rest)))
          = Raise e).
Proof.
  intros H.
  destruct (H (fun _ => []) ascii_only
              (JObj [(py "a", JStr (py "1")); (py "b", JStr (py "2"))])
              [JObj [(py "a", JStr (py "3"))]]) as [e He].
  - exists (JObj [(py "a", JStr (py "3"))]), (py "b").
    repeat split; cbn; auto.
    intros [E|[]]. discriminate E.
  - discriminate He.
Qed.

Lemma json_to_csv_missing_key_as_empty_witness :
  json_to_csv (fun _ => []) ascii_only short_second
  = json_to_csv (fun _ => []) ascii_only
      (JArr [JObj [(py "a", JStr (py "1")); (py "b", JStr (py "2"))];
             JObj [(py "a", JStr (py "3")); (py "b", JStr [])]])
  /\ json_to_csv (fun _ => []) ascii_only short_second
     = (py "a,b" ++ [CR; LF] ++ py "1,2" ++ [CR; LF] ++ py "3," ++ [CR; LF],
        Ok tt).
Proof.
  split; [|reflexivity].
  apply (json_to_csv_missing_key_as_empty (fun _ => []) ascii_only
           [(py "a", JStr (py "1")); (py "b", JStr (py "2"))] [] []
           [(py "a", JStr (py "3"))] (py "b")).
  - right. left. reflexivity.
  - intros [E|[]]. discriminate E.
Defined.

Lemma json_to_csv_extra_key_raises_witness :
  exists e,
    snd (json_to_csv (fun _ => []) ascii_only extra_second) = Raise e
    /\ (forallb is_JObj
          [JObj [(py "a", JStr (py "2")); (py "c", JStr (py "3"))]] = true ->
        e = ValueError).
Proof.
  apply (json_to_csv_extra_key_raises (fun _ => []) ascii_only
           [(py "a", JStr (py "1"))]
           [JObj [(py "a", JStr (py "2")); (py "c", JStr (py "3"))]]
           [(py "a", JStr (py "2")); (py "c", JStr (py "3"))] (py "c")).
  - left; reflexivity.
  - right; left; reflexivity.
  - reflexivity.
Defined.

Lemma json_to_csv_partial_output_witness :
  json_to_csv (fun _ => []) ascii_only
    (JArr [JObj [(py "a", JStr (py "1"))]; JObj [(py "a", JInt 2)];
           JObj [(py "a", JStr [55296%N])]; JObj [(py "a", JStr (py "4"))]])
  = (py "a" ++ [CR; LF] ++ py "1" ++ [CR; LF] ++ py "2" ++ [CR; LF],
     Raise ValueError).
Proof.
  exact (json_to_csv_partial_output (fun _ => []) ascii_only
           [(py "a", JStr (py "1"))] [JObj [(py "a", JInt 2)]]
           (JObj [(py "a", JStr [55296%N])]) [JObj [(py "a", JStr (py "4"))]]
           eq_refl eq_refl eq_refl).
Defined.

Lemma json_to_csv_ignores_key_order_witness :
  json_to_csv (fun _ => []) ascii_only
    (JArr [JObj [(py "a", JStr (py "1")); (py "b", JStr (py "2"))];
           JObj [(py "a", JStr (py "3")); (py "b", JStr (py "4"))]])
  = json_to_csv (fun _ => []) ascii_only
      (JArr [JObj [(py "a", JStr (py "1")); (py "b", JStr (py "2"))];
             JObj [(py "b", JStr (py "4")); (py "a", JStr (py "3"))]]).
Proof.
  apply (json_to_csv_ignores_key_order (fun _ => []) ascii_only
           [(py "a", JStr (py "1")); (py "b", JStr (py "2"))] [] []
           [(py "a", JStr (py "3")); (py "b", JStr (py "4"))]
           [(py "b", JStr (py "4")); (py "a", JStr (py "3"))]).
  - apply NoDup_cons; [intros [E|[]]; discriminate E|].
    apply NoDup_cons; [intros [] | apply NoDup_nil].
  - apply perm_swap.
Defined.

End JsonFacts.

(** ** Path normalisation *)
Module OsPathFacts.
Import OsPath.

Lemma isabs_cons (p : str) :
  isabs p = true -> exists r, p = SLASH :: r.
Proof.
  destruct p as [|c r]; cbn; [discriminate|].
  intros H. apply N.eqb_eq in H. subst. now exists r.
Qed.

Lemma initial_slashes_rooted (r : str) :
  exists n, initial_slashes (SLASH :: r) = S n.
Proof.
  destruct r as [|b [|c r]]; cbn.
  - now exists 0.
  - destruct (b =? SLASH)%N; eauto.
  - destruct ((b =? SLASH)%N && negb (c =? SLASH)%N); eauto.
Qed.

Lemma normpath_isabs (p : str) :
  isabs p = true -> isabs (normpath p) = true.
Proof.
  intros H. destruct (isabs_cons p H) as [r ->].
  unfold normpath.
  destruct (initial_slashes_rooted r) as [n ->].
  reflexivity.
Qed.

Lemma join2_isabs (a b : str) :
  isabs a = true -> isabs (join2 a b) = true.
Proof.
  intros H. unfold join2.
  destruct (isabs b) eqn:Hb; [assumption|].
  destruct (isabs_cons a H) as [r ->].
  now destruct (endswith_sep (SLASH :: r)).
Qed.

Lemma abspath_isabs (cwd p : str) :
  isabs cwd = true -> isabs (abspath cwd p) = true.
Proof.
  intros H. unfold abspath. apply normpath_isabs.
  destruct (isabs p) eqn:Hp; [assumption | now apply join2_isabs].
Qed.

(** C9: [ensure_absolute_path] returns an absolute path unchanged, returns
    [abspath] of a relative path, which is the normalised join of the
    working directory and the path, and is idempotent.  The working
    directory, as [os.getcwd] returns it, is absolute. *)
Theorem ensure_absolute_path_idempotent (cwd path : str) :
  isabs cwd = true ->
  ensure_absolute_path cwd path
  = (if isabs path then path else normpath (join2 cwd path))
  /\ isabs (ensure_absolute_path cwd path) = true
  /\ ensure_absolute_path cwd (ensure_absolute_path cwd path)
     = ensure_absolute_path cwd path.
Proof.
  intros Hcwd.
  assert (isabs (ensure_absolute_path cwd path) = true) as Habs.
  { unfold ensure_absolute_path.
    destruct (isabs path) eqn:Hp; cbn [negb]; [assumption|].
    now apply abspath_isabs. }
  repeat split.
  - unfold ensure_absolute_path, abspath. now destruct (isabs path).
  - exact Habs.
  - unfold ensure_absolute_path at 1. now rewrite Habs.
Qed.

Lemma ensure_absolute_path_idempotent_witness :
  ensure_absolute_path (py "/home/user") (py "data/../in.txt")
  = py "/home/user/in.txt"
  /\ isabs (ensure_absolute_path (py "/home/user") (py "data/../in.txt"))
     = true
  /\ ensure_absolute_path (py "/home/user")
       (ensure_absolute_path (py "/home/user") (py "data/../in.txt"))
     = ensure_absolute_path (py "/home/user") (py "data/../in.txt").
Proof.
  exact (ensure_absolute_path_idempotent (py "/home/user")
           (py "data/../in.txt") eq_refl).
Defined.

End OsPathFacts.

(** ** The tabular converters *)
Module TabularFacts.
Import Tabular.

(** *** txt_to_csv and csv_to_txt *)

Lemma not_CR_LF_crnl (c : char) : c <> CR -> c <> LF -> is_crnl c = false.
Proof.
  intros Hcr Hlf. unfold is_crnl.
  apply N.eqb_neq in Hcr, Hlf. now rewrite Hcr, Hlf.
Qed.

Lemma row_of_line_no_crnl (line : str) :
  line_shape line -> Forall (fun c => c <> CR) line ->
  Forall (Forall (fun c => is_crnl c = false)) (row_of_line line).
Proof.
  intros (l & Hline & Hl) Hcr. unfold row_of_line.
  assert (strip line = strip l /\ Forall (fun c => c <> CR) l) as [-> Hcr'].
  { destruct Hline as [->| ->]; [|now split].
    split; [now apply strip_snoc_space|].
    now apply Forall_app in Hcr as [Hcr _]. }
  apply split_Forall, strip_Forall.
  rewrite Forall_forall in *. intros c Hc.
  apply not_CR_LF_crnl; auto.
Qed.

Lemma rows_readable (txt : str) :
  rows_within_limit (map row_of_line (readlines (read_text txt))) = true ->
  Forall readable_row (map row_of_line (readlines (read_text txt))).
Proof.
  intros Hl. unfold rows_within_limit in Hl.
  rewrite forallb_forall in Hl.
  pose proof (readlines_shape (read_text txt)) as Hshape.
  pose proof (readlines_Forall _ _ (translate_newlines_no_CR false txt))
    as Hcr.
  fold (read_text txt) in Hcr.
  apply Forall_forall. intros row Hrow.
  pose proof (Hl row Hrow) as Hlim.
  apply in_map_iff in Hrow as (line & <- & Hline).
  rewrite Forall_forall in Hshape, Hcr.
  repeat split.
  - apply split_not_nil.
  - assumption.
  - apply row_of_line_no_crnl; auto.
Qed.

Lemma reader_txt_to_csv (txt : str) :
  rows_within_limit (map row_of_line (readlines (read_text txt))) = true ->
  Csv.reader (txt_to_csv txt)
  = Ok (map row_of_line (readlines (read_text txt))).
Proof.
  intros H. unfold txt_to_csv. now apply reader_writerows, rows_readable.
Qed.

Lemma joined_rows (lines : list str) :
  forallb line_kept lines = true ->
  flat_map (fun row => join [COMMA] row ++ [LF]) (map row_of_line lines)
  = List.concat lines.
Proof.
  induction lines as [|line lines IH]; cbn [forallb]; [reflexivity|].
  intros H. apply andb_true_iff in H as [Hline Hlines].
  cbn [map flat_map List.concat]. rewrite (IH Hlines).
  unfold row_of_line. rewrite join_split.
  apply str_eqb_eq in Hline. now rewrite Hline.
Qed.

(** The scenario of the specification: two lines of three fields. *)
Example txt_to_csv_scenario :
  let txt := py "a,b,1" ++ [LF] ++ py "c,d,2" ++ [LF] in
  map row_of_line (readlines (read_text txt))
  = [[py "a"; py "b"; py "1"]; [py "c"; py "d"; py "2"]]
  /\ txt_to_csv txt = py "a,b,1" ++ [CR; LF] ++ py "c,d,2" ++ [CR; LF].
Proof. split; reflexivity. Qed.

(** On a platform whose line separator is CR LF the round trip keeps a file
    written with that separator. *)
Example txt_csv_txt_crlf :
  let txt := py "a,b" ++ [CR; LF] ++ [CR; LF] ++ py "c" ++ [CR; LF] in
  txt_csv_txt [CR; LF] txt = Ok txt.
Proof. reflexivity. Qed.

(** C3, as amended: for a text file of N lines [txt_to_csv] writes N rows,
    the i-th being the i-th line split at the commas after the whitespace
    at both of its ends, the line feed included, was removed; a line of
    whitespace only gives the row of one empty field; and when every field
    fits the field size limit of the reader, the file written reads back as
    exactly these rows. *)
Theorem txt_to_csv_one_row_per_line (txt : str) :
  let lines := readlines (read_text txt) in
  let rows := map row_of_line lines in
  txt_to_csv txt = writerows rows
  /\ List.length rows = List.length lines
  /\ (forall i,
         nth_error rows i
         = option_map (fun line => split COMMA (strip line))
                      (nth_error lines i))
  /\ (forall line, forallb isspace line = true -> row_of_line line = [[]])
  /\ (rows_within_limit rows = true ->
      Csv.reader (txt_to_csv txt) = Ok rows).
Proof.
  cbv zeta. repeat split.
  - apply length_map.
  - intros i. apply nth_error_map.
  - intros line H. unfold row_of_line. now rewrite (strip_blank line H).
  - apply reader_txt_to_csv.
Qed.

(** C3 as stated does not hold: a line that starts with a space loses it,
    where stripping only what trails the line would keep it. *)
Lemma txt_to_csv_strips_leading_whitespace :
  ~ (forall txt,
        txt_to_csv txt
        = writerows (map specified_row_of_line (readlines (read_text txt)))).
Proof.
  intros H. specialize (H (py " a" ++ [LF])). discriminate H.
Qed.

(** C4, as amended: the round trip gives back a text file whose line breaks
    are the line separator of the platform, whose every line is closed by a
    line break and has no whitespace at either end, and whose fields fit the
    field size limit of the reader. *)
Theorem txt_csv_txt_identity (linesep txt : str) :
  write_text linesep (read_text txt) = txt ->
  forallb line_kept (readlines (read_text txt)) = true ->
  rows_within_limit (map row_of_line (readlines (read_text txt))) = true ->
  txt_csv_txt linesep txt = Ok txt.
Proof.
  intros Hsep Hkept Hlim. unfold txt_csv_txt, csv_to_txt.
  rewrite (reader_txt_to_csv txt Hlim). cbn [bind].
  now rewrite (joined_rows _ Hkept), concat_readlines, Hsep.
Qed.

Lemma txt_csv_txt_identity_witness :
  txt_csv_txt [LF] (py "a,b,1" ++ [LF] ++ py "c,d,2" ++ [LF])
  = Ok (py "a,b,1" ++ [LF] ++ py "c,d,2" ++ [LF]).
Proof.
  apply (txt_csv_txt_identity [LF] (py "a,b,1" ++ [LF] ++ py "c,d,2" ++ [LF]));
    vm_compute; reflexivity.
Defined.

(** C4 as stated does not hold: a file whose last line has no line break
    comes back with one, although it has no comma at all. *)
Lemma txt_csv_txt_adds_final_newline :
  ~ (forall txt,
        (forall row f,
            In row (map row_of_line (readlines (read_text txt))) ->
            In f row -> ~ In COMMA f) ->
        txt_csv_txt [LF] txt = Ok txt).
Proof.
  intros H. specialize (H (py "a")).
  assert (txt_csv_txt [LF] (py "a") = Ok (py "a" ++ [LF])) as E
      by reflexivity.
  rewrite E in H. discriminate H.
  intros row f [<-|[]] [<-|[]] [C|[]]. discriminate C.
Qed.

(** *** The round trip in general *)

Lemma lstrip_snoc_nonspace (s : str) (c : char) :
  isspace c = false -> lstrip (s ++ [c]) = lstrip s ++ [c].
Proof.
  intros Hc. induction s as [|d s IH]; cbn.
  - now rewrite Hc.
  - destruct (isspace d); [exact IH | reflexivity].
Qed.

Lemma rstrip_cons_nonspace (c : char) (s : str) :
  isspace c = false -> rstrip (c :: s) = c :: rstrip s.
Proof.
  intros Hc. unfold rstrip. cbn [rev].
  rewrite (lstrip_snoc_nonspace _ _ Hc), rev_app_distr. reflexivity.
Qed.

Lemma lstrip_head (s : str) :
  lstrip s = [] \/ exists c t, lstrip s = c :: t /\ isspace c = false.
Proof.
  induction s as [|c s IH]; cbn; [now left|].
  destruct (isspace c) eqn:Hc; [exact IH|].
  right. now exists c, s.
Qed.

Lemma lstrip_lstrip (s : str) : lstrip (lstrip s) = lstrip s.
Proof.
  destruct (lstrip_head s) as [->|(c & t & -> & Hc)]; [reflexivity|].
  cbn. now rewrite Hc.
Qed.

Lemma rstrip_rstrip (s : str) : rstrip (rstrip s) = rstrip s.
Proof.
  unfold rstrip. now rewrite rev_involutive, lstrip_lstrip.
Qed.

Lemma lstrip_strip (s : str) : lstrip (strip s) = strip s.
Proof.
  unfold strip.
  destruct (lstrip_head s) as [->|(c & t & -> & Hc)]; [reflexivity|].
  rewrite (rstrip_cons_nonspace c t Hc). cbn. now rewrite Hc.
Qed.

Lemma strip_strip (s : str) : strip (strip s) = strip s.
Proof.
  unfold strip at 1. rewrite lstrip_strip.
  unfold strip. apply rstrip_rstrip.
Qed.


Lemma read_text_write_text (linesep s : str) :
  is_linesep linesep -> Forall (fun c => c <> CR) s ->
  read_text (write_text linesep s) = s.
Proof.
  unfold read_text, write_text. intros [-> | ->] Hs.
  - induction Hs as [|c s Hc Hs IH]; cbn; [reflexivity|].
    destruct (N.eqb_spec c LF) as [->|Hlf]; cbn.
    + now rewrite IH.
    + apply N.eqb_neq in Hc, Hlf. rewrite Hc, Hlf. cbn. now rewrite IH.
  - induction Hs as [|c s Hc Hs IH]; cbn; [reflexivity|].
    destruct (N.eqb_spec c LF) as [->|Hlf]; cbn.
    + now rewrite IH.
    + apply N.eqb_neq in Hc, Hlf. rewrite Hc, Hlf. cbn. now rewrite IH.
Qed.

Lemma strip_line_plain (line : str) :
  line_shape line -> Forall (fun c => c <> CR) line ->
  Forall (fun c => c <> CR /\ c <> LF) (strip line).
Proof.
  intros (l & Hline & Hl) Hcr.
  assert (strip line = strip l /\ Forall (fun c => c <> CR) l) as [-> Hcr'].
  { destruct Hline as [->| ->]; [|now split].
    split; [now apply strip_snoc_space|].
    now apply Forall_app in Hcr as [Hcr _]. }
  apply strip_Forall. rewrite Forall_forall in *. auto.
Qed.

Lemma text_lines_plain (txt : str) :
  Forall (fun line => Forall (fun c => c <> CR /\ c <> LF) (strip line))
         (readlines (read_text txt)).
Proof.
  pose proof (readlines_shape (read_text txt)) as Hshape.
  pose proof (readlines_Forall _ _ (translate_newlines_no_CR false txt))
    as Hcr.
  fold (read_text txt) in Hcr.
  rewrite Forall_forall in *. intros line Hline.
  apply strip_line_plain; auto.
Qed.

Lemma stripped_text_no_CR (lines : list str) :
  Forall (fun line => Forall (fun c => c <> CR /\ c <> LF) (strip line)) lines ->
  Forall (fun c => c <> CR) (stripped_text lines).
Proof.
  unfold stripped_text.
  induction 1 as [|line lines Hline Hlines IH]; cbn; [constructor|].
  rewrite <- app_assoc. apply Forall_app. split.
  - eapply Forall_impl; [|exact Hline]. now intros c [H _].
  - constructor; [discriminate | exact IH].
Qed.

Lemma readlines_stripped_text (lines : list str) :
  Forall (fun line => Forall (fun c => c <> CR /\ c <> LF) (strip line)) lines ->
  readlines (stripped_text lines) = map (fun line => strip line ++ [LF]) lines.
Proof.
  unfold stripped_text.
  induction 1 as [|line lines Hline Hlines IH]; cbn; [reflexivity|].
  rewrite <- app_assoc. cbn [app].
  rewrite readlines_snoc_line; [now rewrite IH|].
  eapply Forall_impl; [|exact Hline]. now intros c [_ H].
Qed.

Lemma strip_stripped_line (line : str) :
  strip (strip line ++ [LF]) = strip line.
Proof. rewrite strip_snoc_space by reflexivity. apply strip_strip. Qed.

Lemma joined_rows_stripped (lines : list str) :
  flat_map (fun row => join [COMMA] row ++ [LF]) (map row_of_line lines)
  = stripped_text lines.
Proof.
  unfold stripped_text.
  induction lines as [|line lines IH]; cbn; [reflexivity|].
  rewrite IH. unfold row_of_line. now rewrite join_split.
Qed.

(** What the round trip writes, whatever the text. *)
Lemma round_trip_text (linesep txt : str) :
  rows_within_limit (map row_of_line (readlines (read_text txt))) = true ->
  txt_csv_txt linesep txt
  = Ok (write_text linesep (stripped_text (readlines (read_text txt)))).
Proof.
  intros Hlim. unfold txt_csv_txt, csv_to_txt.
  rewrite (reader_txt_to_csv txt Hlim). cbn [bind].
  now rewrite joined_rows_stripped.
Qed.

(** X1: the round trip of a text file whose fields fit the field size
    limit writes every line of it without the whitespace around it and closed
    by the line separator, in the order of the file. *)
Theorem txt_csv_txt_strips_every_line (linesep txt : str) :
  rows_within_limit (map row_of_line (readlines (read_text txt))) = true ->
  txt_csv_txt linesep txt
  = Ok (write_text linesep
          (flat_map (fun line => strip line ++ [LF])
                    (readlines (read_text txt)))).
Proof. exact (round_trip_text linesep txt). Qed.

Lemma txt_csv_txt_strips_every_line_witness :
  txt_csv_txt [LF] (py "  a , b  " ++ [LF] ++ [9%N; LF] ++ py " c")
  = Ok (py "a , b" ++ [LF] ++ [LF] ++ py "c" ++ [LF]).
Proof.
  exact (txt_csv_txt_strips_every_line [LF]
           (py "  a , b  " ++ [LF] ++ [9%N; LF] ++ py " c") eq_refl).
Defined.

(** X2: the round trip is idempotent: what it writes for a text file goes
    through a second round trip unchanged, with as many lines as the
    original. *)
Theorem txt_csv_txt_idempotent (linesep txt : str) :
  is_linesep linesep ->
  rows_within_limit (map row_of_line (readlines (read_text txt))) = true ->
  exists out,
    txt_csv_txt linesep txt = Ok out
    /\ txt_csv_txt linesep out = Ok out
    /\ List.length (readlines (read_text out))
       = List.length (readlines (read_text txt)).
Proof.
  intros Hsep Hlim.
  pose proof (text_lines_plain txt) as Hplain.
  set (lines := readlines (read_text txt)) in *.
  exists (write_text linesep (stripped_text lines)).
  assert (read_text (write_text linesep (stripped_text lines))
          = stripped_text lines) as Hread
      by (apply read_text_write_text;
          [assumption | now apply stripped_text_no_CR]).
  assert (map row_of_line (map (fun line => strip line ++ [LF]) lines)
          = map row_of_line lines) as Hrows.
  { rewrite map_map. apply map_ext. intros line. unfold row_of_line.
    now rewrite strip_stripped_line. }
  split; [|split].
  - apply round_trip_text. exact Hlim.
  - rewrite round_trip_text.
    + rewrite Hread, (readlines_stripped_text lines Hplain).
      do 2 f_equal. unfold stripped_text.
      rewrite flat_map_concat_map, map_map, <- flat_map_concat_map.
      apply flat_map_ext. intros line. now rewrite strip_stripped_line.
    + now rewrite Hread, (readlines_stripped_text lines Hplain), Hrows.
  - rewrite Hread, (readlines_stripped_text lines Hplain). apply length_map.
Qed.

Lemma txt_csv_txt_idempotent_witness :
  exists out,
    txt_csv_txt [CR; LF] (py " a,b " ++ [LF] ++ py "c") = Ok out
    /\ txt_csv_txt [CR; LF] out = Ok out
    /\ List.length (readlines (read_text out))
       = List.length (readlines (read_text (py " a,b " ++ [LF] ++ py "c"))).
Proof.
  apply (txt_csv_txt_idempotent [CR; LF] (py " a,b " ++ [LF] ++ py "c")).
  - right. reflexivity.
  - vm_compute. reflexivity.
Defined.

(** X3: [csv_to_txt] on a file that [csv.writer] wrote gives one line per
    row, the fields joined by commas as they were handed to the writer: the
    quotes the writer put around a field are gone and are not put back. *)
Theorem csv_to_txt_of_written_rows (linesep : str) (rows : list (list str)) :
  Forall readable_row rows ->
  csv_to_txt linesep (writerows rows)
  = Ok (write_text linesep
          (flat_map (fun row => join [COMMA] row ++ [LF]) rows)).
Proof.
  intros H. unfold csv_to_txt. now rewrite (reader_writerows rows H).
Qed.

Lemma csv_to_txt_of_written_rows_witness :
  writerows [[py "a,b"; py "c"]; [[]]]
  = [QUOTE] ++ py "a,b" ++ [QUOTE] ++ py ",c" ++ [CR; LF]
    ++ [QUOTE; QUOTE; CR; LF]
  /\ csv_to_txt [LF] (writerows [[py "a,b"; py "c"]; [[]]])
     = Ok (py "a,b,c" ++ [LF; LF]).
Proof.
  split; [reflexivity|].
  apply (csv_to_txt_of_written_rows [LF] [[py "a,b"; py "c"]; [[]]]).
  repeat constructor; discriminate.
Defined.

(** *** The field size limit *)

Lemma split_no_sep (sep : char) (s : str) :
  Forall (fun c => c <> sep) s -> split sep s = [s].
Proof.
  induction 1 as [|c s Hc Hs IH]; cbn; [reflexivity|].
  apply N.eqb_neq in Hc. now rewrite Hc, IH.
Qed.






(** *** csv_to_json *)

Lemma dict_set_fresh (d : pydict) (k : option str) (v : pyval) :
  Forall (fun kv => key_eqb (fst kv) k = false) d ->
  dict_set d k v = d ++ [(k, v)].
Proof.
  induction 1 as [|[k' v'] d Hk Hd IH]; cbn; [reflexivity|].
  cbn in Hk. now rewrite Hk, IH.
Qed.

Lemma key_eqb_Some_neq (a b : str) : a <> b -> key_eqb (Some a) (Some b) = false.
Proof. intros H. cbn. now apply str_eqb_neq. Qed.

Lemma fold_dict_set_fresh (header row : list str) (acc : pydict) :
  NoDup header ->
  (forall k, In k header ->
             Forall (fun kv => key_eqb (fst kv) (Some k) = false) acc) ->
  fold_left (fun d kv => dict_set d (Some (fst kv)) (PStr (snd kv)))
            (combine header row) acc
  = acc ++ combine (map Some header) (map PStr row).
Proof.
  intros Hnd. revert row acc.
  induction Hnd as [|k header Hk Hnd IH]; intros row acc Hacc.
  - cbn. now rewrite app_nil_r.
  - destruct row as [|f row]; [cbn; now rewrite app_nil_r|].
    cbn [combine fold_left map fst snd].
    rewrite dict_set_fresh by (apply Hacc; now left).
    rewrite IH; [now rewrite <- app_assoc|].
    intros k' Hk'. apply Forall_app. split; [apply Hacc; now right|].
    constructor; [|constructor]. cbn [fst].
    apply key_eqb_Some_neq. intros ->. contradiction.
Qed.

Lemma dict_zip_distinct (header row : list str) :
  NoDup header ->
  dict_zip header row = combine (map Some header) (map PStr row).
Proof.
  intros H. unfold dict_zip.
  rewrite fold_dict_set_fresh; [reflexivity | assumption | constructor].
Qed.

Lemma dict_of_row_rectangular (header row : list str) :
  NoDup header -> List.length row = List.length header ->
  dict_of_row header row = combine (map Some header) (map PStr row).
Proof.
  intros Hnd Hlen. unfold dict_of_row.
  rewrite Hlen, Nat.ltb_irrefl. now apply dict_zip_distinct.
Qed.

Lemma json_of_rectangular (header row : list str) :
  json_of_pydict (combine (map Some header) (map PStr row))
  = JObj (combine header (map JStr row)).
Proof.
  unfold json_of_pydict. f_equal. revert row.
  induction header as [|k header IH]; intros [|f row]; cbn; try reflexivity.
  now rewrite IH.
Qed.

Lemma filter_nonempty_rows (n : nat) (rows : list (list str)) :
  n <> 0 -> Forall (fun row => List.length row = n) rows ->
  filter (fun row => negb (is_empty_row row)) rows = rows.
Proof.
  intros Hn. induction 1 as [|row rows Hrow Hrows IH]; cbn; [reflexivity|].
  destruct row as [|f row]; [cbn in Hrow; congruence|].
  cbn. now rewrite IH.
Qed.

(** The mapping written for a row that has a field for every column. *)
Lemma json_of_row_rectangular (header row : list str) :
  NoDup header -> List.length row = List.length header ->
  json_of_pydict (dict_of_row header row)
  = JObj (combine header (map JStr row)).
Proof.
  intros Hnd Hlen.
  now rewrite dict_of_row_rectangular, json_of_rectangular.
Qed.

Lemma DictReader_rectangular (header : list str) (rows : list (list str)) :
  header <> [] -> NoDup header ->
  Forall (fun row => List.length row = List.length header) rows ->
  map json_of_pydict (DictReader (header :: rows))
  = map (fun row => JObj (combine header (map JStr row))) rows.
Proof.
  intros Hne Hnd Hrows. cbn [DictReader].
  rewrite (filter_nonempty_rows (List.length header)); [| |assumption].
  - rewrite map_map. apply map_ext_in. intros row Hrow.
    rewrite Forall_forall in Hrows.
    now apply json_of_row_rectangular; [|apply Hrows].
  - destruct header; [contradiction | discriminate].
Qed.

Lemma keys_of_combine (header : list str) (vs : list json) :
  List.length vs = List.length header ->
  map fst (combine header vs) = header /\ map snd (combine header vs) = vs.
Proof.
  revert vs. induction header as [|k header IH]; intros [|v vs]; cbn;
    try discriminate; [now split|].
  intros H. injection H as H. destruct (IH vs H) as [-> ->]. now split.
Qed.

(** C6, as amended: for a CSV file that reads as a header row of distinct
    column names followed by N data rows, each with as many fields as the
    header has columns, [csv_to_json] writes an array of N mappings; the keys
    of the i-th are the header columns, in order, and its values are the
    fields of the i-th data row, as strings. *)
Theorem csv_to_json_rectangular
  (csv : str) (header : list str) (rows : list (list str)) :
  Csv.reader csv = Ok (header :: rows) ->
  header <> [] ->
  NoDup header ->
  Forall (fun row => List.length row = List.length header) rows ->
  exists docs,
    csv_to_json csv = Ok (JArr docs)
    /\ List.length docs = List.length rows
    /\ forall i row,
         nth_error rows i = Some row ->
         exists doc,
           nth_error docs i = Some doc
           /\ json_keys doc = header
           /\ json_values doc = map JStr row
           /\ forallb is_JStr (json_values doc) = true.
Proof.
  intros Hread Hne Hnd Hrows.
  exists (map (fun row => JObj (combine header (map JStr row))) rows).
  split; [|split].
  - unfold csv_to_json. rewrite Hread. cbn [bind].
    now rewrite DictReader_rectangular.
  - apply length_map.
  - intros i row Hi.
    exists (JObj (combine header (map JStr row))).
    rewrite Forall_forall in Hrows.
    assert (List.length (map JStr row) = List.length header) as Hlen.
    { rewrite length_map. apply Hrows. eapply nth_error_In, Hi. }
    destruct (keys_of_combine header (map JStr row) Hlen) as [Hk Hv].
    cbn [json_keys json_values]. rewrite Hk, Hv.
    repeat split.
    + now rewrite nth_error_map, Hi.
    + apply forallb_forall. intros v Hin.
      apply in_map_iff in Hin as (f & <- & _). reflexivity.
Qed.

Lemma csv_to_json_rectangular_witness :
  exists docs,
    csv_to_json (py "a,b" ++ [LF] ++ py "1,2" ++ [LF] ++ py "3,4" ++ [LF])
    = Ok (JArr docs)
    /\ List.length docs = 2
    /\ forall i row,
         nth_error [[py "1"; py "2"]; [py "3"; py "4"]] i = Some row ->
         exists doc,
           nth_error docs i = Some doc
           /\ json_keys doc = [py "a"; py "b"]
           /\ json_values doc = map JStr row
           /\ forallb is_JStr (json_values doc) = true.
Proof.
  apply (csv_to_json_rectangular
           (py "a,b" ++ [LF] ++ py "1,2" ++ [LF] ++ py "3,4" ++ [LF])
           [py "a"; py "b"] [[py "1"; py "2"]; [py "3"; py "4"]]).
  - vm_compute. reflexivity.
  - discriminate.
  - apply NoDup_cons; [intros [E|[]]; discriminate E|].
    apply NoDup_cons; [intros [] | apply NoDup_nil].
  - repeat constructor.
Defined.

(** C6 as stated does not hold: a data row shorter than the header gives a
    mapping in which the columns it has no field for are [null], not a
    string. *)
Lemma csv_to_json_short_row_gives_null :
  ~ (forall csv header rows,
        Csv.reader csv = Ok (header :: rows) ->
        exists docs,
          csv_to_json csv = Ok (JArr docs)
          /\ List.length docs = List.length rows
          /\ Forall (fun doc => json_keys doc = header
                                /\ forallb is_JStr (json_values doc) = true)
                    docs).
Proof.
  intros H.
  destruct (H (py "a,b" ++ [LF] ++ py "1" ++ [LF]) [py "a"; py "b"]
              [[py "1"]] eq_refl) as (docs & E & _ & Hdocs).
  vm_compute in E. injection E as <-.
  inversion Hdocs as [|? ? [_ Hv] _]; subst. discriminate Hv.
Qed.

(** *** csv_to_json on rows of any length *)

Lemma combine_keys_Some (header row : list str) :
  Forall (fun kv => key_eqb (fst kv) None = false)
         (combine (map Some header) (map PStr row)).
Proof.
  revert row. induction header as [|k header IH]; intros [|f row]; cbn;
    constructor; [reflexivity | apply IH].
Qed.

Lemma In_skipn_In (n : nat) (l : list str) (k : str) :
  In k (skipn n l) -> In k l.
Proof.
  intros H. rewrite <- (firstn_skipn n l). apply in_or_app. now right.
Qed.

Lemma NoDup_skipn (n : nat) (l : list str) : NoDup l -> NoDup (skipn n l).
Proof.
  intros H. rewrite <- (firstn_skipn n l) in H.
  now apply NoDup_app_remove_l in H.
Qed.

Lemma combine_keys_fresh (header row : list str) (k : str) :
  NoDup header -> In k (skipn (List.length row) header) ->
  Forall (fun kv => key_eqb (fst kv) (Some k) = false)
         (combine (map Some header) (map PStr row)).
Proof.
  intros Hnd. revert row.
  induction Hnd as [|k0 header Hk0 Hnd IH]; intros [|f row] Hk; cbn;
    try constructor.
  - cbn [fst]. apply key_eqb_Some_neq. intros ->.
    cbn in Hk. apply In_skipn_In in Hk. contradiction.
  - apply IH. exact Hk.
Qed.

Lemma fold_set_none_fresh (ks : list str) (acc : pydict) :
  NoDup ks ->
  (forall k, In k ks ->
             Forall (fun kv => key_eqb (fst kv) (Some k) = false) acc) ->
  fold_left (fun d key => dict_set d (Some key) PNone) ks acc
  = acc ++ map (fun k => (Some k, PNone)) ks.
Proof.
  intros Hnd. revert acc.
  induction Hnd as [|k ks Hk Hnd IH]; intros acc Hacc; cbn [fold_left map].
  - now rewrite app_nil_r.
  - rewrite dict_set_fresh by (apply Hacc; now left).
    rewrite IH; [now rewrite <- app_assoc|].
    intros k' Hk'. apply Forall_app. split; [apply Hacc; now right|].
    constructor; [|constructor]. cbn [fst].
    apply key_eqb_Some_neq. intros ->. contradiction.
Qed.

Lemma json_pairs_combine (header row : list str) :
  map json_pair (combine (map Some header) (map PStr row))
  = combine header (map JStr row).
Proof.
  revert row. induction header as [|k header IH]; intros [|f row]; cbn;
    try reflexivity.
  now rewrite IH.
Qed.

Lemma json_pairs_padded (header row : list str) :
  map json_pair
      (combine (map Some header) (map PStr row)
       ++ map (fun k => (Some k, PNone)) (skipn (List.length row) header))
  = combine header
      (map JStr row ++ repeat JNull (List.length header - List.length row)).
Proof.
  revert row. induction header as [|k header IH]; intros row.
  - destruct row; reflexivity.
  - destruct row as [|f row].
    + cbn [map combine List.length skipn app Nat.sub repeat].
      f_equal. specialize (IH []). cbn in IH.
      rewrite Nat.sub_0_r in IH.
      destruct header; exact IH.
    + cbn [map combine List.length skipn app Nat.sub]. f_equal. apply IH.
Qed.

Lemma json_of_dict_of_row (header row : list str) :
  NoDup header ->
  json_of_pydict (dict_of_row header row) = doc_of_row header row.
Proof.
  intros Hnd. unfold dict_of_row, doc_of_row, json_of_pydict.
  rewrite (dict_zip_distinct header row Hnd).
  fold json_pair.
  destruct (Nat.ltb (List.length header) (List.length row)) eqn:Hlong.
  - rewrite dict_set_fresh by apply combine_keys_Some.
    now rewrite map_app, json_pairs_combine.
  - destruct (Nat.ltb (List.length row) (List.length header)) eqn:Hshort.
    + rewrite fold_set_none_fresh.
      * now rewrite json_pairs_padded.
      * now apply NoDup_skipn.
      * intros k Hk. now apply combine_keys_fresh.
    + apply Nat.ltb_ge in Hlong, Hshort.
      replace (List.length header - List.length row) with 0 by lia.
      cbn [repeat]. now rewrite app_nil_r, json_pairs_combine.
Qed.

(** X4: for a CSV file whose header row has distinct column names,
    [csv_to_json] writes one mapping per non-empty data row, in order: the
    fields of the row under their columns, [null] under every column a short
    row has no field for, and the surplus fields of a long row as a list
    under the key [null]. *)
Theorem csv_to_json_ragged_rows
  (csv : str) (header : list str) (rows : list (list str)) :
  Csv.reader csv = Ok (header :: rows) ->
  NoDup header ->
  csv_to_json csv
  = Ok (JArr (map (doc_of_row header)
                  (filter (fun row => negb (is_empty_row row)) rows))).
Proof.
  intros Hread Hnd. unfold csv_to_json. rewrite Hread. cbn [bind DictReader].
  rewrite map_map. do 2 f_equal.
  apply map_ext. intros row. now apply json_of_dict_of_row.
Qed.

Lemma csv_to_json_ragged_rows_witness :
  csv_to_json (py "a,b" ++ [LF] ++ py "1" ++ [LF] ++ [LF]
               ++ py "1,2,3" ++ [LF])
  = Ok (JArr [JObj [(py "a", JStr (py "1")); (py "b", JNull)];
              JObj [(py "a", JStr (py "1")); (py "b", JStr (py "2"));
                    (py "null", JArr [JStr (py "3")])]]).
Proof.
  apply (csv_to_json_ragged_rows
           (py "a,b" ++ [LF] ++ py "1" ++ [LF] ++ [LF] ++ py "1,2,3" ++ [LF])
           [py "a"; py "b"] [[py "1"]; []; [py "1"; py "2"; py "3"]]).
  - vm_compute. reflexivity.
  - apply NoDup_cons; [intros [E|[]]; discriminate E|].
    apply NoDup_cons; [intros [] | apply NoDup_nil].
Defined.

End TabularFacts.

(** ** CSV to JSON and back *)
Module ComposeFacts.
Import Tabular JsonFacts TabularFacts.

Lemma dict_get_fresh (d : list (str * json)) (k key : str) (v default : json) :
  k <> key -> dict_get ((k, v) :: d) key default = dict_get d key default.
Proof. intros H. cbn. apply str_eqb_neq in H. now rewrite H. Qed.

Lemma dict_get_combine (header : list str) (vs : list json) (default : json) :
  NoDup header -> List.length vs = List.length header ->
  map (fun key => dict_get (combine header vs) key default) header = vs.
Proof.
  intros Hnd. revert vs.
  induction Hnd as [|k header Hk Hnd IH]; intros [|v vs] Hlen;
    try discriminate; [reflexivity|].
  injection Hlen as Hlen. cbn [combine map]. f_equal.
  - cbn. now rewrite str_eqb_refl.
  - transitivity (map (fun key => dict_get (combine header vs) key default)
                      header); [|now apply IH].
    apply map_ext_in. intros key Hkey.
    apply dict_get_fresh. intros ->. contradiction.
Qed.

Lemma mem_all_self (header : list str) :
  forallb (fun k => mem k header) header = true.
Proof. apply forallb_forall. intros k Hk. now apply mem_In. Qed.

Section WithStr.

Variable py_str : json -> str.
Variable encodable : char -> bool.

Lemma renderable_strings (fields : list str) :
  forallb renderable (map JStr fields) = true.
Proof. induction fields; [reflexivity | assumption]. Qed.

Lemma writable_strings (fields : list str) :
  forallb encodable (writerow fields) = true ->
  writable py_str encodable (map JStr fields) = true.
Proof.
  intros H. unfold writable. rewrite renderable_strings, map_map.
  cbn [field_text andb]. now rewrite map_id.
Qed.

Lemma forallb_flat_map (p : char -> bool) (f : list str -> str)
  (rows : list (list str)) :
  forallb p (flat_map f rows) = forallb (fun row => forallb p (f row)) rows.
Proof.
  induction rows as [|row rows IH]; [reflexivity|].
  cbn [flat_map forallb]. now rewrite forallb_app, IH.
Qed.

Lemma written_row_of_table_row (header row : list str) :
  NoDup header -> List.length row = List.length header ->
  written_row py_str header (JObj (combine header (map JStr row)))
  = writerow row.
Proof.
  intros Hnd Hlen. unfold written_row. f_equal. cbn [get].
  rewrite <- map_map with (g := field_text py_str)
                         (f := fun key => dict_get _ key (JStr [])).
  rewrite dict_get_combine by (rewrite ?length_map; assumption).
  rewrite map_map. cbn [field_text]. apply map_id.
Qed.

Lemma keys_within_table_row (header row : list str) :
  List.length row = List.length header ->
  keys_within header (JObj (combine header (map JStr row))) = true.
Proof.
  intros Hlen. cbn [keys_within].
  destruct (keys_of_combine header (map JStr row)) as [-> _];
    [now rewrite length_map | apply mem_all_self].
Qed.

Lemma written_rows_of_table (header : list str) (rows : list (list str)) :
  NoDup header ->
  Forall (fun row => List.length row = List.length header) rows ->
  flat_map (written_row py_str header)
           (map (fun row => JObj (combine header (map JStr row))) rows)
  = writerows rows.
Proof.
  intros Hnd. unfold writerows.
  induction 1 as [|row rows Hrow Hrows IH]; cbn [map flat_map];
    [reflexivity|].
  now rewrite IH, written_row_of_table_row.
Qed.

Lemma row_ok_table_row (header row : list str) :
  NoDup header -> List.length row = List.length header ->
  forallb encodable (writerow row) = true ->
  row_ok py_str encodable header (JObj (combine header (map JStr row)))
  = true.
Proof.
  intros Hnd Hlen Henc. unfold row_ok.
  rewrite keys_within_table_row by assumption. cbn [andb get].
  rewrite dict_get_combine by (rewrite ?length_map; assumption).
  now apply writable_strings.
Qed.

(** What [json_to_csv] writes for the document of a table. *)
Lemma json_to_csv_table (header : list str) (rows : list (list str)) :
  NoDup header -> rows <> [] ->
  Forall (fun row => List.length row = List.length header) rows ->
  forallb encodable (writerows (header :: rows)) = true ->
  json_to_csv py_str encodable (table header rows)
  = (writerows (header :: rows), Ok tt).
Proof.
  intros Hnd Hne Hrows Henc.
  unfold writerows in Henc. cbn [flat_map] in Henc.
  rewrite forallb_app in Henc. apply andb_true_iff in Henc as [Hh Hr].
  rewrite forallb_flat_map, forallb_forall in Hr.
  destruct rows as [|r0 rs]; [contradiction|].
  pose proof (Forall_inv Hrows) as Hr0.
  unfold table. cbn [map].
  assert (map fst (combine header (map JStr r0)) = header) as Hkeys
      by (destruct (keys_of_combine header (map JStr r0)) as [? _];
          [now rewrite length_map | assumption]).
  pose proof (json_to_csv_rows_ok py_str encodable
                (combine header (map JStr r0))
                (map (fun row => JObj (combine header (map JStr row))) rs))
    as Hjson.
  rewrite Hkeys in Hjson. rewrite Hjson.
  - change (JObj (combine header (map JStr r0))
            :: map (fun row => JObj (combine header (map JStr row))) rs)
      with (map (fun row => JObj (combine header (map JStr row))) (r0 :: rs)).
    now rewrite written_rows_of_table.
  - now apply writable_strings.
  - change (JObj (combine header (map JStr r0))
            :: map (fun row => JObj (combine header (map JStr row))) rs)
      with (map (fun row => JObj (combine header (map JStr row))) (r0 :: rs)).
    apply forallb_forall. intros doc Hdoc.
    apply in_map_iff in Hdoc as (row & <- & Hrow).
    rewrite Forall_forall in Hrows.
    apply row_ok_table_row; [assumption | now apply Hrows | now apply Hr].
Qed.

(** X7: a CSV file with a header row of distinct column names and one or
    more data rows, each with a field for every column, goes through
    [csv_to_json] and [json_to_csv] as the same table: the file written at
    the end holds the header row and the data rows of the first, as
    [csv.writer] writes them.  The characters of the table are characters
    the output file can encode, as those of a file read in the same
    encoding are. *)
Theorem csv_to_json_then_json_to_csv
  (csv : str) (header : list str) (rows : list (list str)) :
  Csv.reader csv = Ok (header :: rows) ->
  header <> [] ->
  NoDup header ->
  rows <> [] ->
  Forall (fun row => List.length row = List.length header) rows ->
  forallb encodable (writerows (header :: rows)) = true ->
  exists doc,
    csv_to_json csv = Ok doc
    /\ json_to_csv py_str encodable doc
       = (writerows (header :: rows), Ok tt).
Proof.
  intros Hread Hne Hnd Hrows Hlen Henc. exists (table header rows). split.
  - unfold csv_to_json, table. rewrite Hread. cbn [bind].
    now rewrite DictReader_rectangular.
  - now apply json_to_csv_table.
Qed.

(** X8: an array of one or more mappings that all have the same keys, one
    or more and distinct, in the same order, and strings as values, goes
    through [json_to_csv] and [csv_to_json] unchanged when the keys and the
    values are free of line breaks, within the field size limit and made of
    characters the output file can encode. *)
Theorem json_to_csv_then_csv_to_json
  (header : list str) (rows : list (list str)) :
  header <> [] ->
  NoDup header ->
  rows <> [] ->
  Forall (fun row => List.length row = List.length header) rows ->
  Forall readable_row (header :: rows) ->
  forallb encodable (writerows (header :: rows)) = true ->
  exists csv,
    json_to_csv py_str encodable (table header rows) = (csv, Ok tt)
    /\ csv_to_json csv = Ok (table header rows).
Proof.
  intros Hne Hnd Hrows Hlen Hreadable Henc.
  exists (writerows (header :: rows)). split.
  - now apply json_to_csv_table.
  - unfold csv_to_json, table.
    rewrite (reader_writerows _ Hreadable). cbn [bind].
    now rewrite DictReader_rectangular.
Qed.

(** X9: a CSV file without data rows, or with empty data rows only, is
    converted by [csv_to_json] to the empty array, on which [json_to_csv]
    raises [IndexError]: a table without rows does not survive the two
    conversions. *)
Theorem empty_table_does_not_come_back
  (csv : str) (rows : list (list str)) :
  Csv.reader csv = Ok rows ->
  forallb is_empty_row (tl rows) = true ->
  csv_to_json csv = Ok (JArr [])
  /\ json_to_csv py_str encodable (JArr []) = ([], Raise IndexError).
Proof.
  intros Hread Hempty. split; [|reflexivity].
  unfold csv_to_json. rewrite Hread. cbn [bind].
  destruct rows as [|header rest]; [reflexivity|].
  cbn [DictReader tl] in *. do 2 f_equal. clear Hread.
  induction rest as [|row rest IH]; [reflexivity|].
  cbn [forallb] in Hempty. apply andb_true_iff in Hempty as [Hrow Hrest].
  cbn [filter]. rewrite Hrow. cbn [negb map]. exact (IH Hrest).
Qed.

End WithStr.

Lemma csv_to_json_then_json_to_csv_witness :
  exists doc,
    csv_to_json (py "a,b" ++ [LF] ++ py "1,x y" ++ [LF]) = Ok doc
    /\ json_to_csv (fun _ => []) ascii_only doc
       = (writerows [[py "a"; py "b"]; [py "1"; py "x y"]], Ok tt).
Proof.
  apply (csv_to_json_then_json_to_csv (fun _ => []) ascii_only
           (py "a,b" ++ [LF] ++ py "1,x y" ++ [LF])
           [py "a"; py "b"] [[py "1"; py "x y"]]).
  - vm_compute. reflexivity.
  - discriminate.
  - apply NoDup_cons; [intros [E|[]]; discriminate E|].
    apply NoDup_cons; [intros [] | apply NoDup_nil].
  - discriminate.
  - repeat constructor.
  - reflexivity.
Defined.

Lemma json_to_csv_then_csv_to_json_witness :
  exists csv,
    json_to_csv (fun _ => []) ascii_only
      (table [py "k"; py "v"] [[py "a,b"; []]; [py "c"; py "d"]])
    = (csv, Ok tt)
    /\ csv_to_json csv
       = Ok (table [py "k"; py "v"] [[py "a,b"; []]; [py "c"; py "d"]]).
Proof.
  apply (json_to_csv_then_csv_to_json (fun _ => []) ascii_only
           [py "k"; py "v"] [[py "a,b"; []]; [py "c"; py "d"]]).
  - discriminate.
  - apply NoDup_cons; [intros [E|[]]; discriminate E|].
    apply NoDup_cons; [intros [] | apply NoDup_nil].
  - discriminate.
  - repeat constructor.
  - repeat constructor; discriminate.
  - reflexivity.
Defined.

Lemma empty_table_does_not_come_back_witness :
  csv_to_json (py "a,b" ++ [LF] ++ [LF]) = Ok (JArr [])
  /\ json_to_csv (fun _ => []) ascii_only (JArr [])
     = ([], Raise IndexError).
Proof.
  apply (empty_table_does_not_come_back (fun _ => []) ascii_only
           (py "a,b" ++ [LF] ++ [LF]) [[py "a"; py "b"]; []]).
  - vm_compute. reflexivity.
  - reflexivity.
Defined.

End ComposeFacts.

(** ** Relative paths of plain names *)
Module ResolveFacts.
Import OsPath TabularFacts.

Lemma plain_component_spec (comp : str) :
  plain_component comp = true ->
  comp <> [] /\ str_eqb comp dot = false /\ str_eqb comp dotdot = false
  /\ Forall (fun c => c <> SLASH) comp.
Proof.
  unfold plain_component. intros H.
  apply andb_true_iff in H as [H Hs].
  apply andb_true_iff in H as [H Hdd].
  apply andb_true_iff in H as [Hne Hd].
  apply negb_true_iff in Hd, Hdd.
  repeat split; try assumption.
  - intros ->. discriminate Hne.
  - rewrite forallb_forall in Hs. apply Forall_forall. intros c Hc.
    specialize (Hs c Hc). apply negb_true_iff in Hs. now apply N.eqb_neq.
Qed.

Lemma split_app_sep (sep : char) (p t : str) :
  Forall (fun c => c <> sep) p ->
  split sep (p ++ sep :: t) = p :: split sep t.
Proof.
  induction 1 as [|c p Hc Hp IH]; cbn.
  - now rewrite N.eqb_refl.
  - apply N.eqb_neq in Hc. now rewrite Hc, IH.
Qed.

Lemma split_join (sep : char) (parts : list str) :
  parts <> [] -> Forall (Forall (fun c => c <> sep)) parts ->
  split sep (join [sep] parts) = parts.
Proof.
  intros Hne H. induction H as [|p parts Hp Hparts IH]; [contradiction|].
  destruct parts as [|q parts].
  - cbn. now apply split_no_sep.
  - rewrite join_cons by discriminate. cbn [app].
    rewrite split_app_sep by assumption. f_equal. apply IH. discriminate.
Qed.

Lemma join_app (sep : str) (a b : list str) :
  a <> [] -> b <> [] ->
  join sep (a ++ b) = join sep a ++ sep ++ join sep b.
Proof.
  intros Ha Hb. induction a as [|p a IH]; [contradiction|].
  destruct a as [|q a].
  - cbn [app]. now rewrite join_cons.
  - change ((p :: q :: a) ++ b) with (p :: (q :: a) ++ b).
    rewrite join_cons by discriminate.
    rewrite IH by discriminate.
    rewrite (join_cons sep p (q :: a)) by discriminate.
    now rewrite <- !app_assoc.
Qed.

Lemma join_head (comp : str) (comps : list str) :
  comp <> [] ->
  exists c t, join [SLASH] (comp :: comps) = c :: t /\ In c comp.
Proof.
  intros Hne. destruct comp as [|c comp]; [contradiction|].
  destruct comps; cbn; eexists _, _; split; try reflexivity; now left.
Qed.

Lemma endswith_sep_app (a b : str) :
  b <> [] -> endswith_sep (a ++ b) = endswith_sep b.
Proof.
  intros Hb. unfold endswith_sep. rewrite rev_app_distr.
  destruct (rev b) eqn:E; [|reflexivity].
  apply (f_equal (@rev char)) in E. rewrite rev_involutive in E.
  contradiction.
Qed.

Lemma endswith_sep_plain (comp : str) :
  comp <> [] -> Forall (fun c => c <> SLASH) comp ->
  endswith_sep comp = false.
Proof.
  intros Hne H. unfold endswith_sep.
  apply Forall_rev in H.
  destruct (rev comp) as [|c r] eqn:E.
  - apply (f_equal (@rev char)) in E. rewrite rev_involutive in E.
    contradiction.
  - inversion H; subst. now apply N.eqb_neq.
Qed.

Lemma join_last (comps : list str) (comp : str) :
  exists prefix, join [SLASH] (comps ++ [comp]) = prefix ++ comp.
Proof.
  induction comps as [|p comps IH]; [now exists []|].
  destruct IH as [prefix IH].
  exists (p ++ [SLASH] ++ prefix).
  change ((p :: comps) ++ [comp]) with (p :: (comps ++ [comp])).
  rewrite join_cons by (destruct comps; discriminate).
  now rewrite IH, <- !app_assoc.
Qed.

Lemma fold_norm_step_plain (initial : nat) (comps acc : list str) :
  forallb plain_component comps = true ->
  fold_left (norm_step initial) comps acc = acc ++ comps.
Proof.
  revert acc. induction comps as [|comp comps IH]; intros acc H; cbn.
  - now rewrite app_nil_r.
  - cbn in H. apply andb_true_iff in H as [Hcomp Hcomps].
    destruct (plain_component_spec comp Hcomp) as (Hne & Hd & Hdd & _).
    unfold norm_step at 2. rewrite Hd, Hdd.
    assert (str_eqb comp [] = false) as ->
        by (destruct comp; [contradiction | reflexivity]).
    cbn [orb negb]. rewrite IH by assumption. now rewrite <- app_assoc.
Qed.

Lemma plain_components_no_slash (comps : list str) :
  forallb plain_component comps = true ->
  Forall (Forall (fun c => c <> SLASH)) comps.
Proof.
  rewrite forallb_forall. intros H. apply Forall_forall. intros comp Hc.
  now destruct (plain_component_spec comp (H comp Hc)) as (_ & _ & _ & ?).
Qed.

Lemma normpath_rooted_plain (comps : list str) :
  comps <> [] -> forallb plain_component comps = true ->
  normpath (SLASH :: join [SLASH] comps) = SLASH :: join [SLASH] comps.
Proof.
  intros Hne H. destruct comps as [|comp comps]; [contradiction|].
  pose proof H as H'. cbn [forallb] in H'.
  apply andb_true_iff in H' as [Hcomp _].
  destruct (plain_component_spec comp Hcomp) as (Hcne & _ & _ & Hslash).
  unfold normpath.
  assert (initial_slashes (SLASH :: join [SLASH] (comp :: comps)) = 1) as ->.
  { destruct (join_head comp comps Hcne) as (c & t & -> & Hc).
    rewrite Forall_forall in Hslash. specialize (Hslash c Hc).
    apply N.eqb_neq in Hslash. cbn. rewrite Hslash. now destruct t. }
  cbn [split]. rewrite N.eqb_refl.
  rewrite split_join by (discriminate || now apply plain_components_no_slash).
  change (fold_left (norm_step 1) ([] :: comp :: comps) [])
    with (fold_left (norm_step 1) (comp :: comps) []).
  rewrite fold_norm_step_plain by assumption.
  reflexivity.
Qed.

(** X12: in a working directory made of plain directory names, a relative
    path made of plain names is resolved by [ensure_absolute_path] to the
    working directory followed by the path: nothing is dropped, reordered or
    rewritten. *)
Theorem ensure_absolute_path_appends_to_cwd (dirs names : list str) :
  forallb plain_component dirs = true ->
  forallb plain_component names = true ->
  names <> [] ->
  ensure_absolute_path (SLASH :: join [SLASH] dirs) (join [SLASH] names)
  = SLASH :: join [SLASH] (dirs ++ names).
Proof.
  intros Hdirs Hnames Hne.
  destruct names as [|name names]; [contradiction|].
  pose proof Hnames as H'. cbn [forallb] in H'.
  apply andb_true_iff in H' as [Hname _].
  destruct (plain_component_spec name Hname) as (Hnne & _ & _ & Hslash).
  assert (isabs (join [SLASH] (name :: names)) = false) as Hrel.
  { destruct (join_head name names Hnne) as (c & t & -> & Hc).
    rewrite Forall_forall in Hslash. specialize (Hslash c Hc).
    now apply N.eqb_neq in Hslash. }
  unfold ensure_absolute_path, abspath. rewrite Hrel. cbn [negb].
  assert (join2 (SLASH :: join [SLASH] dirs) (join [SLASH] (name :: names))
          = SLASH :: join [SLASH] (dirs ++ name :: names)) as ->.
  { unfold join2. rewrite Hrel.
    destruct dirs as [|d dirs] using rev_ind; [reflexivity|]. clear IHdirs.
    rewrite forallb_app in Hdirs. apply andb_true_iff in Hdirs as [_ Hd].
    cbn [forallb] in Hd. rewrite andb_true_r in Hd.
    destruct (plain_component_spec d Hd) as (Hdne & _ & _ & Hdslash).
    destruct (join_last dirs d) as [prefix Hlast].
    assert (endswith_sep (SLASH :: join [SLASH] (dirs ++ [d])) = false) as ->.
    { rewrite Hlast.
      change (SLASH :: prefix ++ d) with ((SLASH :: prefix) ++ d).
      rewrite endswith_sep_app by assumption.
      now apply endswith_sep_plain. }
    rewrite (join_app [SLASH] (dirs ++ [d]) (name :: names))
      by (discriminate || (destruct dirs; discriminate)).
    reflexivity. }
  apply normpath_rooted_plain.
  - destruct dirs; discriminate.
  - rewrite forallb_app. now rewrite Hdirs, Hnames.
Qed.

Lemma ensure_absolute_path_appends_to_cwd_witness :
  ensure_absolute_path (py "/home/user") (py "data/in.txt")
  = py "/home/user/data/in.txt".
Proof.
  exact (ensure_absolute_path_appends_to_cwd
           [py "home"; py "user"] [py "data"; py "in.txt"]
           eq_refl eq_refl ltac:(discriminate)).
Defined.

End ResolveFacts.

(** ** From CSV to text and back *)
Module RoundTripFacts.
Import Tabular TabularFacts ResolveFacts.

Lemma join_Forall (P : char -> Prop) (sep : char) (parts : list str) :
  P sep -> Forall (Forall P) parts -> Forall P (join [sep] parts).
Proof.
  intros Hsep. induction 1 as [|p parts Hp Hparts IH]; [constructor|].
  destruct parts as [|q parts]; [exact Hp|].
  rewrite join_cons by discriminate.
  apply Forall_app. split; [exact Hp|]. now constructor.
Qed.

Lemma readlines_closed_lines (lines : list str) :
  Forall (Forall (fun c => c <> LF)) lines ->
  readlines (flat_map (fun l => l ++ [LF]) lines)
  = map (fun l => l ++ [LF]) lines.
Proof.
  induction 1 as [|l lines Hl Hlines IH]; cbn [flat_map map]; [reflexivity|].
  rewrite <- app_assoc. cbn [app].
  now rewrite readlines_snoc_line, IH.
Qed.

Lemma text_row_spec (row : list str) :
  text_row row = true ->
  row <> []
  /\ Forall (Forall (fun c => c <> COMMA /\ is_crnl c = false)) row
  /\ strip (join [COMMA] row) = join [COMMA] row.
Proof.
  unfold text_row. intros H.
  apply andb_true_iff in H as [H Hstrip].
  apply andb_true_iff in H as [Hne Hfields].
  repeat split.
  - intros ->. discriminate Hne.
  - apply Forall_forall. intros f Hf. apply Forall_forall. intros c Hc.
    rewrite forallb_forall in Hfields. specialize (Hfields f Hf).
    rewrite forallb_forall in Hfields. specialize (Hfields c Hc).
    apply andb_true_iff in Hfields as [Hcomma Hnl].
    apply negb_true_iff in Hcomma, Hnl.
    split; [now apply N.eqb_neq | assumption].
  - now apply str_eqb_eq.
Qed.

Lemma text_row_readable (row : list str) :
  text_row row = true -> forallb within_limit row = true ->
  readable_row row.
Proof.
  intros H Hlim. destruct (text_row_spec row H) as (Hne & Hf & _).
  repeat split; [assumption | assumption |].
  eapply Forall_impl; [|exact Hf]. intros f Hc.
  eapply Forall_impl; [|exact Hc]. now intros c [_ ?].
Qed.

Lemma text_row_joined (P : char -> Prop) (row : list str) :
  P COMMA -> (forall c, c <> COMMA /\ is_crnl c = false -> P c) ->
  text_row row = true -> Forall P (join [COMMA] row).
Proof.
  intros Hcomma HP H. destruct (text_row_spec row H) as (_ & Hf & _).
  apply join_Forall; [assumption|].
  eapply Forall_impl; [|exact Hf]. intros f Hc.
  eapply Forall_impl; [|exact Hc]. exact HP.
Qed.

Lemma row_of_joined_line (row : list str) :
  text_row row = true ->
  row_of_line (join [COMMA] row ++ [LF]) = row.
Proof.
  intros H. destruct (text_row_spec row H) as (Hne & Hf & Hstrip).
  unfold row_of_line.
  rewrite strip_snoc_space by reflexivity. rewrite Hstrip.
  apply split_join; [assumption|].
  eapply Forall_impl; [|exact Hf]. intros f Hc.
  eapply Forall_impl; [|exact Hc]. now intros c [? _].
Qed.

(** X14: a CSV file that [csv.writer] wrote from rows a line of text can
    hold (at least one field per row, no comma or line break inside a field,
    no whitespace at either end of the row, fields within the field size
    limit) goes through [csv_to_txt] and [txt_to_csv] unchanged. *)
Theorem csv_to_txt_then_txt_to_csv (linesep : str) (rows : list (list str)) :
  is_linesep linesep ->
  forallb text_row rows = true ->
  rows_within_limit rows = true ->
  exists txt,
    csv_to_txt linesep (writerows rows) = Ok txt
    /\ txt_to_csv txt = writerows rows.
Proof.
  intros Hsep Htext Hlim.
  rewrite forallb_forall in Htext.
  unfold rows_within_limit in Hlim. rewrite forallb_forall in Hlim.
  assert (Forall readable_row rows) as Hreadable.
  { apply Forall_forall. intros row Hrow.
    apply text_row_readable; auto. }
  set (text := flat_map (fun row => join [COMMA] row ++ [LF]) rows).
  exists (write_text linesep text). split.
  - unfold csv_to_txt. now rewrite (reader_writerows rows Hreadable).
  - assert (text = flat_map (fun l => l ++ [LF]) (map (join [COMMA]) rows))
      as Htextlines.
    { unfold text.
      now rewrite (flat_map_concat_map _ (map _ rows)), map_map,
        <- flat_map_concat_map. }
    assert (Forall (fun c => c <> CR) text) as Hcr.
    { unfold text. clear Hreadable Hlim Htextlines.
      induction rows as [|row rows IH]; [constructor|].
      cbn [flat_map]. rewrite <- app_assoc. apply Forall_app. split.
      - apply text_row_joined; [discriminate | | apply Htext; now left].
        intros c [_ Hc] ->. discriminate Hc.
      - constructor; [discriminate|]. apply IH.
        intros r Hr. apply Htext. now right. }
    unfold txt_to_csv.
    rewrite (read_text_write_text linesep text Hsep Hcr), Htextlines.
    rewrite readlines_closed_lines.
    + rewrite !map_map. f_equal.
      rewrite <- (map_id rows) at 2. apply map_ext_in. intros row Hrow.
      now apply row_of_joined_line, Htext.
    + apply Forall_forall. intros l Hl.
      apply in_map_iff in Hl as (row & <- & Hrow).
      apply text_row_joined; [discriminate | | now apply Htext].
      intros c [_ Hc] ->. discriminate Hc.
Qed.

Lemma csv_to_txt_then_txt_to_csv_witness :
  exists txt,
    csv_to_txt [CR; LF]
      (writerows [[py "a"; []; py "b c"]; [[]]; [py "say " ++ [QUOTE] ++ py "hi" ++ [QUOTE]]])
    = Ok txt
    /\ txt_to_csv txt
       = writerows [[py "a"; []; py "b c"]; [[]]; [py "say " ++ [QUOTE] ++ py "hi" ++ [QUOTE]]].
Proof.
  apply (csv_to_txt_then_txt_to_csv [CR; LF]
           [[py "a"; []; py "b c"]; [[]]; [py "say " ++ [QUOTE] ++ py "hi" ++ [QUOTE]]]).
  - right. reflexivity.
  - vm_compute. reflexivity.
  - vm_compute. reflexivity.
Defined.

End RoundTripFacts.
